(** * levelcache: a two-tier read-through cache over go-cache and Redis

    A shallow embedding of package [levelcache] and the properties its
    specification states about it.

    The repository holds three revisions of [cache.go]:
    - [R1]: [src/cache.go]                      (loader-driven worker, no lock),
    - [R2]: [src/unnamed/part_000]              (lock-guarded refresh),
    - [R3]: [src/cache_test.go], lines 59-312   (notifications carry a
                                                 version number).
    Where the three differ in design, the properties are stated for [R3], the
    revision that the specification describes and that the tests and [go.mod]
    compile against; what the older ones do instead is recorded at the end.

    The collaborators outside the repository are modelled first, on their
    documented behaviour: Go strings and [strconv.ParseInt], the Redis server
    behind [redis.Client], [redislock], the go-cache local tier and Go
    channels. Methods run in a monad of state, panic and blocking over the
    server and the instance; a trace records the loader calls and the
    commands sent to the server. A method runs without interleaving; the
    goroutine of [Refresh] is run right after the call. Time is not modelled:
    entries and locks do not expire. *)

From stdpp Require Import base strings gmap list pretty.
From Stdlib Require Import ZArith Lia Ascii String.

Local Open Scope string_scope.
Local Open Scope list_scope.
Local Open Scope Z_scope.

(** ** Go strings *)

Definition cacheKeyJoint : string := "#$#".

(** [strings.Join(a, cacheKeyJoint)] *)
Definition jointKey (a : list string) : string := String.concat cacheKeyJoint a.

Fixpoint hasPrefix (p s : string) : bool :=
  match p, s with
  | EmptyString, _ => true
  | String a p', String b s' => if decide (a = b) then hasPrefix p' s' else false
  | String _ _, EmptyString => false
  end.

(** [strings.Split(s, sep)] for a non-empty [sep]: [skip] counts the bytes of
    a separator still to be dropped, [cur] is the piece read so far. *)
Fixpoint splitGo (sep : string) (skip : nat) (cur : string) (s : string)
  : list string :=
  match s with
  | EmptyString => [cur]
  | String ch s' =>
      match skip with
      | S n => splitGo sep n cur s'
      | O =>
          if hasPrefix sep s
          then cur :: splitGo sep (String.length sep - 1) "" s'
          else splitGo sep O (cur +:+ String ch "") s'
      end
  end.

Definition Split (s sep : string) : list string := splitGo sep O "" s.

(** [splitKey] of [src/cache.go] *)
Definition splitKey (a : string) : string * string :=
  match Split a cacheKeyJoint with
  | x :: y :: _ => (x, y)
  | _ => ("", "")
  end.

(** ** [strconv.ParseInt(s, 10, 64)] *)

Definition digitVal (c : ascii) : option Z :=
  let n := Z.of_N (N_of_ascii c) in
  if (48 <=? n) && (n <=? 57) then Some (n - 48) else None.

Fixpoint parseDigits (s : string) (acc : Z) : option Z :=
  match s with
  | EmptyString => Some acc
  | String c s' =>
      match digitVal c with
      | Some d => parseDigits s' (acc * 10 + d)
      | None => None
      end
  end.

(** [strconv.ParseUint(s, 10, 64)]: [None] stands for a syntax or range error. *)
Definition ParseUint (s : string) : option Z :=
  match s with
  | EmptyString => None
  | _ =>
      match parseDigits s 0 with
      | Some n => if n <? 2 ^ 64 then Some n else None
      | None => None
      end
  end.

Definition ParseInt (s : string) : option Z :=
  match s with
  | EmptyString => None
  | String c s' =>
      let neg := bool_decide (c = "-"%char) in
      let body := if bool_decide (c = "+"%char) || neg then s' else s in
      match ParseUint body with
      | None => None
      | Some un =>
          if neg
          then (if un <=? 2 ^ 63 then Some (- un) else None)
          else (if un <? 2 ^ 63 then Some un else None)
      end
  end.

(** ** Go errors *)

Inductive error : Type :=
| redisNil                      (* redis.Nil: the key holds no value *)
| redisFailure                  (* any other failure of a Redis command *)
| ErrNotObtained                (* redislock.ErrNotObtained *)
| ErrLockNotHeld                (* redislock.ErrLockNotHeld *)
| Errorf (msg : string)         (* fmt.Errorf, errors.New *)
| codecFailure (msg : string).  (* an error of jsoniter or copier *)

#[global] Instance error_eq_dec : EqDecision error.
Proof. solve_decision. Defined.

(** ** The interface [Cacheable] ([model.go]) and the codecs *)

Class Cacheable (Obj : Type) := {
  Namespace : Obj → string;
  Key : Obj → string;
}.

(** jsoniter and copier are libraries outside the package: the package only
    relies on their signatures. [UnmarshalFromString content obj] and
    [Copy to from] return the new contents of the object they write to; on an
    error the object is taken to be as it was. *)
Class Codec (Obj : Type) := {
  MarshalToString : Obj → string + error;
  UnmarshalFromString : string → Obj → Obj + error;
  Copy : Obj → Obj → Obj + error;
}.

(** [type DataLoader func(ctx context.Context, key string) (Cacheable, error)] *)
Definition DataLoader (Obj : Type) : Type := string → Obj + error.

(** [jsonString] ([R1], [R2]) and [toJson] ([R3]) have the same body. *)
Definition toJson `{Codec Obj} (obj : Obj) : string :=
  match MarshalToString obj with
  | inl content => content
  | inr _ => ""
  end.

(** ** The Redis server

    The server is outside the repository and is modelled on the documented
    behaviour of the commands that the package sends. [redis] is the key
    space ([TTL]s are not modelled); [outage] is the schedule of communication
    failures, one entry consumed per command, an exhausted schedule meaning
    no failure; [nonce] is the source of the random tokens of [redislock]. *)
Record World := mkWorld {
  redis : gmap string string;
  outage : list bool;
  nonce : N;
}.

(** One command reaches the server unless the schedule says it fails. *)
Definition reach (w : World) : bool * World :=
  match outage w with
  | [] => (true, w)
  | b :: rest => (negb b, mkWorld (redis w) rest (nonce w))
  end.

Definition setRedis (w : World) (m : gmap string string) : World :=
  mkWorld m (outage w) (nonce w).

(** The value of a string as Redis reads it for [INCR]: the decimal numeral
    of a 64-bit signed integer, nothing else. *)
Definition string2ll (s : string) : option Z :=
  match ParseInt s with
  | Some z => if decide (pretty z = s) then Some z else None
  | None => None
  end.

(** [GET key] *)
Definition redisGet (key : string) (w : World) : (string * option error) * World :=
  let '(up, w) := reach w in
  if up then
    match redis w !! key with
    | Some v => ((v, None), w)
    | None => (("", Some redisNil), w)
    end
  else (("", Some redisFailure), w).

(** [SET key value] *)
Definition redisSet (key value : string) (w : World) : option error * World :=
  let '(up, w) := reach w in
  if up then (None, setRedis w (<[key := value]> (redis w)))
  else (Some redisFailure, w).

(** [INCR key]: an absent key counts as 0. *)
Definition redisIncr (key : string) (w : World) : (Z * option error) * World :=
  let '(up, w) := reach w in
  if up then
    let old :=
      match redis w !! key with
      | Some v => string2ll v
      | None => Some 0
      end in
    match old with
    | Some n =>
        if n <? 2 ^ 63 - 1
        then ((n + 1, None), setRedis w (<[key := pretty (n + 1)]> (redis w)))
        else ((0, Some redisFailure), w)
    | None => ((0, Some redisFailure), w)
    end
  else ((0, Some redisFailure), w).

(** [PING] *)
Definition redisPing (w : World) : option error * World :=
  let '(up, w) := reach w in
  if up then (None, w) else (Some redisFailure, w).

(** ** redislock

    [Obtain(ctx, key, ttl, nil)] is one [SET key token NX PX ttl] with a
    fresh random token and no retry; [Release] deletes the key if it still
    holds the token. *)
Record Lock := mkLock { lockKey : string; lockToken : string }.

Definition lockObtain (key : string) (w : World) : (Lock * option error) * World :=
  let tok := "token-" +:+ pretty (nonce w) in
  let w := mkWorld (redis w) (outage w) (nonce w + 1)%N in
  let '(up, w) := reach w in
  if up then
    match redis w !! key with
    | Some _ => ((mkLock key "", Some ErrNotObtained), w)
    | None => ((mkLock key tok, None), setRedis w (<[key := tok]> (redis w)))
    end
  else ((mkLock key "", Some redisFailure), w).

Definition lockRelease (l : Lock) (w : World) : option error * World :=
  let '(up, w) := reach w in
  if up then
    if decide (redis w !! lockKey l = Some (lockToken l))
    then (None, setRedis w (delete (lockKey l) (redis w)))
    else (Some ErrLockNotHeld, w)
  else (Some redisFailure, w).

(** ** Go channels with a buffer *)
Record chan (A : Type) := mkChan {
  buf : list A;
  capacity : nat;
  closed : bool;
}.
Arguments mkChan {A} _ _ _.
Arguments buf {A} _.
Arguments capacity {A} _.
Arguments closed {A} _.

Definition makeChan {A} (n : Z) : chan A := mkChan [] (Z.to_nat n) false.

(** ** Goroutines as state transformers

    A call either returns ([Done]), panics ([Panic], a nil dereference or a
    send on a closed channel) or is parked ([Parked]: blocked on a full
    channel, or still retrying when the bound on retries is reached). *)
Inductive Res (S A : Type) : Type :=
| Done (a : A) (s : S)
| Panic (s : S)
| Parked (s : S).
Arguments Done {S A} _ _.
Arguments Panic {S A} _.
Arguments Parked {S A} _.

Definition M (S A : Type) : Type := S → Res S A.

#[global] Instance M_ret {S} : MRet (M S) := λ A a s, Done a s.
#[global] Instance M_bind {S} : MBind (M S) := λ A B f m s,
  match m s with
  | Done a s' => f a s'
  | Panic s' => Panic s'
  | Parked s' => Parked s'
  end.

Definition panic {S A} : M S A := λ s, Panic s.
Definition park {S A} : M S A := λ s, Parked s.

(** What a run leaves behind, whatever its outcome. *)
Definition final {S A} (r : Res S A) : S :=
  match r with Done _ s | Panic s | Parked s => s end.

(** ** The cache instance *)

(** [redis.Options] as [New] fills them in. *)
Record RedisClient := mkClient { Addr : string; Password : string; DB : Z }.

(** What an observer of one instance can count: loader invocations and the
    commands sent to the remote tier. *)
Inductive event : Type :=
| LoaderCall (namespace key : string)
| RedisPing
| RedisGet (key : string)
| RedisSet (key value : string)
| RedisIncr (key : string)
| LockObtain (key : string)
| LockRelease (key : string).

#[global] Instance event_eq_dec : EqDecision event.
Proof. solve_decision. Defined.

(** The event is a command to the remote tier. *)
Definition isRemote (e : event) : bool :=
  match e with LoaderCall _ _ => false | _ => true end.

Definition isLoaderCall (e : event) : bool :=
  match e with LoaderCall _ _ => true | _ => false end.

Section Instance_.
Context {Obj Cfg Item Note : Type}.

(** [type levelCache struct]; [Item] is what the local tier holds, [Note]
    what the channel [updates] carries. Expiry of local entries is not
    modelled: an entry stays until it is overwritten. *)
Record levelCache := mkLevelCache {
  c : gmap string Item;
  rdb : option RedisClient;
  loaders : gmap string (DataLoader Obj);
  cfg : Cfg;
  version : gmap string Z;
  updates : chan Note;
  stop : chan unit;
  locker : option RedisClient;
}.

Record State := mkState {
  world : World;
  self : levelCache;
  trace : list event;
}.

Definition emit (e : event) : M State unit := λ s,
  Done () (mkState (world s) (self s) (trace s ++ [e])).

Definition onWorld {A} (f : World → A * World) : M State A := λ s,
  let '(a, w) := f (world s) in Done a (mkState w (self s) (trace s)).

Definition getSelf : M State levelCache := λ s, Done (self s) s.

Definition setSelf (p : levelCache) : M State unit := λ s,
  Done () (mkState (world s) p (trace s)).

(** A method of [*redis.Client] called through the field [p.rdb]. *)
Definition withRdb {A} (m : M State A) : M State A :=
  p ← getSelf;
  match rdb p with
  | Some _ => m
  | None => panic
  end.

(** [p.rdb.Get(ctx, key).Result()] *)
Definition rdbGet (key : string) : M State (string * option error) :=
  withRdb (emit (RedisGet key);; onWorld (redisGet key)).

(** [p.rdb.Set(ctx, key, value, ttl)]; no caller looks at the result. *)
Definition rdbSet (key value : string) : M State unit :=
  withRdb (emit (RedisSet key value);; onWorld (redisSet key value);; mret ()).

(** [p.rdb.Incr(ctx, key).Result()] *)
Definition rdbIncr (key : string) : M State (Z * option error) :=
  withRdb (emit (RedisIncr key);; onWorld (redisIncr key)).

(** [p.locker.Obtain(ctx, key, ttl, nil)] *)
Definition lockerObtain (key : string) : M State (Lock * option error) :=
  p ← getSelf;
  match locker p with
  | Some _ => emit (LockObtain key);; onWorld (lockObtain key)
  | None => panic
  end.

(** [lock.Release(ctx)] *)
Definition release (l : Lock) : M State (option error) :=
  emit (LockRelease (lockKey l));; onWorld (lockRelease l).

(** [p.c.Get(k)] *)
Definition cGet (k : string) : M State (option Item) :=
  p ← getSelf; mret (c p !! k).

(** [p.c.Set(k, x, d)] and [p.c.SetDefault(k, x)] *)
Definition cSet (k : string) (x : Item) : M State unit :=
  p ← getSelf;
  setSelf (mkLevelCache (<[k := x]> (c p)) (rdb p) (loaders p) (cfg p)
             (version p) (updates p) (stop p) (locker p)).

(** [p.version[k] = v] *)
Definition setVersion (k : string) (v : Z) : M State unit :=
  p ← getSelf;
  setSelf (mkLevelCache (c p) (rdb p) (loaders p) (cfg p)
             (<[k := v]> (version p)) (updates p) (stop p) (locker p)).

(** [p.loaders[namespace] = loader] *)
Definition setLoader (namespace : string) (loader : DataLoader Obj) : M State unit :=
  p ← getSelf;
  setSelf (mkLevelCache (c p) (rdb p) (<[namespace := loader]> (loaders p))
             (cfg p) (version p) (updates p) (stop p) (locker p)).

Definition setUpdates (p : levelCache) (ch : chan Note) : levelCache :=
  mkLevelCache (c p) (rdb p) (loaders p) (cfg p) (version p) ch (stop p)
    (locker p).

(** [p.updates <- x]: panics on a closed channel, blocks while the buffer
    is full (the hand-over to a receiver that waits is not modelled, so that
    a send on a channel without buffer blocks). *)
Definition send (x : Note) : M State unit :=
  p ← getSelf;
  let ch := updates p in
  if closed ch then panic
  else if decide (List.length (buf ch) < capacity ch)%nat
  then setSelf (setUpdates p (mkChan (buf ch ++ [x]) (capacity ch) false))
  else park.

(** [loader(ctx, key)] for the loader registered under [namespace] *)
Definition callLoader (namespace : string) (loader : DataLoader Obj)
    (key : string) : M State (Obj + error) :=
  emit (LoaderCall namespace key);; mret (loader key).

End Instance_.
Arguments levelCache : clear implicits.
Arguments State : clear implicits.

Definition liftW {A} (f : World → A * World) : M World A := λ w,
  let '(a, w') := f w in Done a w'.

(** [time.Duration] counts nanoseconds. *)
Definition Millisecond : Z := 1000000.
Definition Minute : Z := 60 * 1000 * Millisecond.
Definition Hour : Z := 60 * Minute.

(** * Revision 1: [src/cache.go] *)
Module R1.

Definition cacheInvalidInterval : Z := 24 * Hour.
Definition maxUpdateLen : Z := 1000.

Definition DataLoaderNotFound : error := Errorf "data loader not found".

Record CacheConfig := mkConfig {
  RedisAddr : string;
  RedisDb : Z;
  RedisPassw : string;
  RedisPoolSize : Z;
  LocalExpiration : Z;
  CleanupInterval : Z;
}.

Section Methods.
Context {Obj : Type} `{!Cacheable Obj, !Codec Obj}.

(** The local tier holds the objects themselves (as values: that [p.c.Set(k,
    obj, d)] keeps the caller's pointer is not modelled); the struct has no
    field [locker], which stays [None]. *)
Abbreviation levelCache := (levelCache Obj CacheConfig Obj string).
Abbreviation State := (State Obj CacheConfig Obj string).

Definition New (conf : CacheConfig) : M World (option levelCache * option error) :=
  let lc := mkLevelCache ∅ None ∅ conf ∅ (makeChan maxUpdateLen) (makeChan 1)
              None in
  err ← liftW redisPing;
  match err with
  | Some err => mret (None, Some err)
  | None => mret (Some lc, None)
  end.

Definition RegisterLoader (namespace : string) (loader : DataLoader Obj)
  : M State unit :=
  setLoader namespace loader.

Definition checkCacheUpdate (namespace key : string) : M State unit :=
  let k := jointKey [namespace; key] in
  let vk := jointKey [namespace; key; "version"] in
  '(latestContent, err) ← rdbGet vk;
  match err with
  | Some _ => mret ()
  | None =>
      match ParseInt latestContent with
      | None => mret ()
      | Some latest =>
          p ← getSelf;
          match version p !! k with
          | None => mret ()
          | Some current =>
              if decide (latest ≠ current) then send k else mret ()
          end
      end
  end.

Definition get (key : string) (obj : Obj) : M State (Obj * option error) :=
  let k := jointKey [Namespace obj; key] in
  (* read local cache *)
  hit ← cGet k;
  match hit with
  | Some data =>
      match Copy obj data with
      | inr err => mret (obj, Some err)
      | inl obj => mret (obj, None)
      end
  | None =>
      (* read redis cache *)
      '(content, err) ← rdbGet key;
      if bool_decide (err ≠ None ∧ err ≠ Some redisNil)
      then mret (obj, err)
      else
        let fromLoader (obj : Obj) : M State (Obj * option error) :=
          p ← getSelf;
          match loaders p !! Namespace obj with
          | None => mret (obj, Some DataLoaderNotFound)
          | Some loader =>
              r ← callLoader (Namespace obj) loader key;
              match r with
              | inr err => mret (obj, Some err)
              | inl data =>
                  match Copy obj data with
                  | inr err => mret (obj, Some err)
                  | inl obj =>
                      rdbSet k (toJson obj);;
                      cSet k obj;;
                      p ← getSelf;
                      (match version p !! k with
                       | Some _ => mret ()
                       | None => setVersion k 0
                       end);;
                      mret (obj, None)
                  end
              end
          end in
        if decide (content ≠ "")
        then
          match UnmarshalFromString content obj with
          | inr err => mret (obj, Some err)
          | inl obj => cSet k obj;; fromLoader obj
          end
        else fromLoader obj
  end.

Definition Get (key : string) (obj : Obj) : M State (Obj * option error) :=
  checkCacheUpdate (Namespace obj) key;;
  get key obj.

Definition parseAndDo (k : string) : M State (option error) :=
  let '(namespace, key) := splitKey k in
  p ← getSelf;
  match loaders p !! namespace with
  | None => mret (Some DataLoaderNotFound)
  | Some loader =>
      r ← callLoader namespace loader key;
      match r with
      | inr err => mret (Some err)
      | inl data => cSet k data;; mret None
      end
  end.

Definition Refresh (namespace key : string) : M State unit :=
  p ← getSelf;
  match loaders p !! namespace with
  | None => mret ()
  | Some loader =>
      r ← callLoader namespace loader key;
      match r with
      | inr _ => mret ()
      | inl data =>
          let k := jointKey [namespace; key] in
          rdbSet k (toJson data);;
          cSet k data;;
          let vk := jointKey ["version"; k] in
          '(recNo, err) ← rdbIncr vk;
          match err with
          | None => setVersion k recNo
          | Some _ => mret ()
          end
      end
  end.

End Methods.
End R1.

(** * Revision 2: [src/unnamed/part_000] *)
Module R2.

Record CacheConfig := mkConfig {
  RedisAddr : string;
  RedisDb : Z;
  RedisPassword : string;
  RedisPoolSize : Z;
  CacheExpiration : Z;
  CleanupInterval : Z;
  LockInterval : Z;
  MaxUpdateBuffer : Z;
}.

Section Methods.
Context {Obj : Type} `{!Cacheable Obj, !Codec Obj}.

Abbreviation levelCache := (levelCache Obj CacheConfig string string).
Abbreviation State := (State Obj CacheConfig string string).

(** [New] does not call [checkAndLoadDefault] in this revision;
    [make(chan string, n)] panics for a negative [n]. *)
Definition New (conf : CacheConfig) : M World (option levelCache * option error) :=
  if MaxUpdateBuffer conf <? 0 then panic else
  let lc := mkLevelCache ∅ None ∅ conf ∅ (makeChan (MaxUpdateBuffer conf))
              (makeChan 1) None in
  let client := mkClient (RedisAddr conf) (RedisPassword conf) (RedisDb conf) in
  err ← liftW redisPing;
  match err with
  | Some err => mret (None, Some err)
  | None =>
      mret (Some (mkLevelCache (c lc) (rdb lc) (loaders lc) (cfg lc)
                    (version lc) (updates lc) (stop lc) (Some client)),
            None)
  end.

Definition RegisterLoader (namespace : string) (loader : DataLoader Obj)
  : M State (option error) :=
  p ← getSelf;
  match loaders p !! namespace with
  | Some _ => mret (Some (Errorf ("data loader [" +:+ namespace +:+ "] existed")))
  | None => setLoader namespace loader;; mret None
  end.

Definition checkCacheUpdate (namespace key : string) : M State unit :=
  let k := jointKey [namespace; key] in
  let vk := jointKey [namespace; key; "version"] in
  '(latestContent, err) ← rdbGet vk;
  match err with
  | Some _ => mret ()
  | None =>
      match ParseInt latestContent with
      | None => mret ()
      | Some latest =>
          p ← getSelf;
          match version p !! k with
          | None => mret ()
          | Some current =>
              if decide (latest ≠ current) then send k else mret ()
          end
      end
  end.

Definition get (key : string) (obj : Obj) : M State (Obj * option error) :=
  let k := jointKey [Namespace obj; key] in
  (* read local cache *)
  hit ← cGet k;
  match hit with
  | Some content =>
      match UnmarshalFromString content obj with
      | inr err => mret (obj, Some err)
      | inl obj => mret (obj, None)
      end
  | None =>
      (* read redis cache *)
      '(content, err) ← rdbGet key;
      if bool_decide (err ≠ None ∧ err ≠ Some redisNil)
      then mret (obj, err)
      else
        let fromLoader (obj : Obj) : M State (Obj * option error) :=
          p ← getSelf;
          match loaders p !! Namespace obj with
          | None =>
              mret (obj, Some (Errorf ("data loader [" +:+ Namespace obj
                                        +:+ "] not found")))
          | Some loader =>
              r ← callLoader (Namespace obj) loader key;
              match r with
              | inr err => mret (obj, Some err)
              | inl data =>
                  match Copy obj data with
                  | inr err => mret (obj, Some err)
                  | inl obj =>
                      rdbSet k (toJson obj);;
                      cSet k (toJson obj);;
                      p ← getSelf;
                      (match version p !! k with
                       | Some _ => mret ()
                       | None => setVersion k 0
                       end);;
                      mret (obj, None)
                  end
              end
          end in
        if decide (content ≠ "")
        then
          match UnmarshalFromString content obj with
          | inr err => mret (obj, Some err)
          | inl obj => cSet k (toJson obj);; fromLoader obj
          end
        else fromLoader obj
  end.

Definition Get (key : string) (obj : Obj) : M State (Obj * option error) :=
  checkCacheUpdate (Namespace obj) key;;
  get key obj.

Definition parseAndDo (k : string) : M State (option error) :=
  '(content, err) ← rdbGet k;
  match err with
  | Some err => mret (Some err)
  | None => cSet k content;; mret None
  end.

(** The goroutine of [Refresh]; [fuel] bounds the turns of its loop that are
    followed. *)
Fixpoint refreshTask (fuel : nat) (loader : DataLoader Obj)
    (namespace key : string) : M State unit :=
  let k := jointKey [namespace; key] in
  let lockKey := jointKey ["lock"; k] in
  match fuel with
  | O => park
  | S fuel =>
      '(lock, err) ← lockerObtain lockKey;
      match err with
      | Some _ => refreshTask fuel loader namespace key
      | None =>
          r ← callLoader namespace loader key;
          match r with
          | inr _ => mret ()
          | inl data =>
              cSet k (toJson data);;
              rdbSet k (toJson data);;
              let vk := jointKey ["version"; k] in
              '(recNo, err) ← rdbIncr vk;
              (match err with
               | None => setVersion k recNo
               | Some _ => mret ()
               end);;
              release lock;;
              mret ()
          end
      end
  end.

Definition Refresh (fuel : nat) (namespace key : string) : M State unit :=
  p ← getSelf;
  match loaders p !! namespace with
  | None => mret ()
  | Some loader => refreshTask fuel loader namespace key
  end.

End Methods.
End R2.

(** * Revision 3: [src/cache_test.go], lines 59-312 *)
Module R3.

Definition defaultCacheInvalidInterval : Z := 1440 * Minute.
Definition defaultCleanupInterval : Z := 1441 * Minute.
Definition defaultMaxUpdateBuffer : Z := 100.
Definition defaultUpdateLockInterval : Z := Minute.

Record CacheConfig := mkConfig {
  RedisAddr : string;
  RedisDb : Z;
  RedisPassword : string;
  RedisPoolSize : Z;
  CacheExpiration : Z;
  CleanupInterval : Z;
  LockInterval : Z;
  MaxUpdateBuffer : Z;
}.

Record versionInfo := mkInfo { dataKey : string; versionNo : Z }.

(** [if p.X == 0 { p.X = d }] *)
Definition orDefault (x d : Z) : Z := if x =? 0 then d else x.

Definition checkAndLoadDefault (p : CacheConfig) : CacheConfig + error :=
  if decide (RedisAddr p = "") then inr (Errorf "invalid redis connect addr")
  else inl (mkConfig (RedisAddr p) (RedisDb p) (RedisPassword p)
              (orDefault (RedisPoolSize p) 40)
              (orDefault (CacheExpiration p) defaultCacheInvalidInterval)
              (orDefault (CleanupInterval p) defaultCleanupInterval)
              (orDefault (LockInterval p) defaultUpdateLockInterval)
              (orDefault (MaxUpdateBuffer p) defaultMaxUpdateBuffer)).

Section Methods.
Context {Obj : Type} `{!Cacheable Obj, !Codec Obj}.

Abbreviation levelCache := (levelCache Obj CacheConfig string versionInfo).
Abbreviation State := (State Obj CacheConfig string versionInfo).

(** [make(chan versionInfo, n)] panics for a negative [n]. *)
Definition New (conf : CacheConfig) : M World (option levelCache * option error) :=
  match checkAndLoadDefault conf with
  | inr err => mret (None, Some err)
  | inl conf =>
      if MaxUpdateBuffer conf <? 0 then panic else
      let lc := mkLevelCache ∅ None ∅ conf ∅
                  (makeChan (MaxUpdateBuffer conf)) (makeChan 1) None in
      let client := mkClient (RedisAddr conf) (RedisPassword conf) (RedisDb conf) in
      err ← liftW redisPing;
      match err with
      | Some err => mret (None, Some err)
      | None =>
          mret (Some (mkLevelCache (c lc) (Some client) (loaders lc) (cfg lc)
                        (version lc) (updates lc) (stop lc) (Some client)),
                None)
      end
  end.

Definition RegisterLoader (namespace : string) (loader : DataLoader Obj)
  : M State (option error) :=
  p ← getSelf;
  match loaders p !! namespace with
  | Some _ => mret (Some (Errorf ("data loader [" +:+ namespace +:+ "] existed")))
  | None => setLoader namespace loader;; mret None
  end.

(** The range loop of [RegisterLoaders], over the bindings in the order in
    which the loop meets them (Go leaves that order open). *)
Fixpoint registerAll (bindings : list (string * DataLoader Obj)) : M State unit :=
  match bindings with
  | [] => mret ()
  | (namespace, loader) :: rest =>
      setLoader namespace loader;; registerAll rest
  end.

Definition RegisterLoaders (new : gmap string (DataLoader Obj)) : M State unit :=
  if decide (0 < size new)%nat then registerAll (map_to_list new) else mret ().

Definition checkCacheUpdate (namespace key : string) : M State unit :=
  let k := jointKey [namespace; key] in
  let vk := jointKey [namespace; key; "version"] in
  '(latestContent, err) ← rdbGet vk;
  match err with
  | Some _ => mret ()
  | None =>
      match ParseInt latestContent with
      | None => mret ()
      | Some latest =>
          p ← getSelf;
          match version p !! k with
          | None => mret ()
          | Some current =>
              if decide (latest ≠ current)
              then send (mkInfo k latest)
              else mret ()
          end
      end
  end.

(** The statements of [get] from the lookup of the loader on (lines 220 to
    236), which both outcomes of the remote read lead to. *)
Definition loadThrough (k key : string) (obj : Obj) : M State (Obj * option error) :=
  p ← getSelf;
  match loaders p !! Namespace obj with
  | None =>
      mret (obj, Some (Errorf ("data loader [" +:+ Namespace obj
                                +:+ "] not found")))
  | Some loader =>
      r ← callLoader (Namespace obj) loader key;
      match r with
      | inr err => mret (obj, Some err)
      | inl data =>
          match Copy obj data with
          | inr err => mret (obj, Some err)
          | inl obj =>
              rdbSet k (toJson obj);;
              cSet k (toJson obj);;
              p ← getSelf;
              (match version p !! k with
               | Some _ => mret ()
               | None => setVersion k 0
               end);;
              mret (obj, None)
          end
      end
  end.

(** [get] returns the contents of [obj] at the return, and the error. *)
Definition get (key : string) (obj : Obj) : M State (Obj * option error) :=
  let k := jointKey [Namespace obj; key] in
  (* read local cache *)
  hit ← cGet k;
  match hit with
  | Some content =>
      match UnmarshalFromString content obj with
      | inr err => mret (obj, Some err)
      | inl obj => mret (obj, None)
      end
  | None =>
      (* read redis cache *)
      '(content, err) ← rdbGet k;
      if bool_decide (err ≠ None ∧ err ≠ Some redisNil)
      then mret (obj, err)
      else if decide (content ≠ "")
      then
        match UnmarshalFromString content obj with
        | inr err => mret (obj, Some err)
        | inl obj => cSet k (toJson obj);; loadThrough k key obj
        end
      else loadThrough k key obj
  end.

Definition Get (key : string) (obj : Obj) : M State (Obj * option error) :=
  checkCacheUpdate (Namespace obj) key;;
  get key obj.

Definition parseAndDo (info : versionInfo) : M State (option error) :=
  '(content, err) ← rdbGet (dataKey info);
  match err with
  | Some err => mret (Some err)
  | None =>
      setVersion (dataKey info) (versionNo info);;
      cSet (dataKey info) content;;
      mret None
  end.

(** The goroutine of [Refresh]; [fuel] bounds the turns of its loop that
    are followed ([time.Sleep] has no effect on the state). *)
Fixpoint refreshTask (fuel : nat) (loader : DataLoader Obj)
    (namespace key : string) : M State unit :=
  let k := jointKey [namespace; key] in
  let lockKey := jointKey ["lock"; k] in
  let vk := jointKey ["version"; k] in
  match fuel with
  | O => park
  | S fuel =>
      '(lock, err) ← lockerObtain lockKey;
      match err with
      | Some _ => refreshTask fuel loader namespace key
      | None =>
          r ← callLoader namespace loader key;
          match r with
          | inr _ => mret ()
          | inl data =>
              cSet k (toJson data);;
              rdbSet k (toJson data);;
              '(recNo, err) ← rdbIncr vk;
              (match err with
               | None => setVersion k recNo
               | Some _ => mret ()
               end);;
              release lock;;
              mret ()
          end
      end
  end.

(** [Refresh] followed by the run of the goroutine it starts. *)
Definition Refresh (fuel : nat) (namespace key : string) : M State unit :=
  p ← getSelf;
  match loaders p !! namespace with
  | None => mret ()
  | Some loader => refreshTask fuel loader namespace key
  end.

(** One turn of the worker started by [Start], taking the branch
    [case update := <-p.updates]. *)
Definition workerReceive : M State unit :=
  p ← getSelf;
  match buf (updates p) with
  | [] => park
  | update :: rest =>
      setSelf (setUpdates p (mkChan rest (capacity (updates p))
                               (closed (updates p))));;
      parseAndDo update;;
      mret ()
  end.

(** [Stop]: [p.stop <- struct{}{}] *)
Definition Stop : M State unit :=
  p ← getSelf;
  let ch := stop p in
  if closed ch then panic
  else if decide (List.length (buf ch) < capacity ch)%nat
  then setSelf (mkLevelCache (c p) (rdb p) (loaders p) (cfg p) (version p)
                  (updates p) (mkChan (buf ch ++ [()]) (capacity ch) false)
                  (locker p))
  else park.

(** One turn of the worker taking the branch [case <-p.stop]: the branch is
    ready when [stop] holds a signal or is closed; [close] of a closed
    channel panics; after the two [close]s the worker returns. *)
Definition workerStop : M State unit :=
  p ← getSelf;
  let ch := stop p in
  if closed ch then panic
  else
    match buf ch with
    | [] => park
    | _ :: rest =>
        let stopped := mkChan rest (capacity ch) true in
        if closed (updates p)
        then
          setSelf (mkLevelCache (c p) (rdb p) (loaders p) (cfg p) (version p)
                     (updates p) stopped (locker p));;
          panic
        else
          setSelf (mkLevelCache (c p) (rdb p) (loaders p) (cfg p) (version p)
                     (mkChan (buf (updates p)) (capacity (updates p)) true)
                     stopped (locker p))
    end.

End Methods.
End R3.

(** * The test model [Dish] and its loader [GetDish] ([src/unnamed/part_001])

    [Price] is a [float64] in the source; the two dishes of [GetDish] have
    integral prices, which is all that is modelled. *)
Record Dish := mkDish {
  ID : Z;
  Name : string;
  Taste : Z;
  Price : Z;
  Comment : string;
}.

#[global] Instance Dish_eq_dec : EqDecision Dish.
Proof. solve_decision. Defined.

#[global] Instance Dish_Cacheable : Cacheable Dish := {|
  Namespace _ := "dish";
  Key p := pretty (ID p);
|}.

Definition GetDish : DataLoader Dish := λ key,
  if decide (key = "1") then
    inl (mkDish 1 "GongBaoJiDing" 1 40 "awesome")
  else if decide (key = "2") then
    inl (mkDish 2 "GongBaoJiDing" 0 100 "excellent")
  else inr (Errorf ("dish [" +:+ key +:+ "] not found")).

(** The JSON text of a dish under its field tags, for names and comments
    that need no escaping, and a reader of exactly that text. *)
Definition quote : string := String "034"%char "".

Definition jsonField (name value : string) : string :=
  quote +:+ name +:+ quote +:+ ":" +:+ value.

Definition jsonText (s : string) : string := quote +:+ s +:+ quote.

Definition marshalDish (d : Dish) : string :=
  "{" +:+ jsonField "id" (pretty (ID d))
  +:+ "," +:+ jsonField "name" (jsonText (Name d))
  +:+ "," +:+ jsonField "taste" (pretty (Taste d))
  +:+ "," +:+ jsonField "price" (pretty (Price d))
  +:+ "," +:+ jsonField "comment" (jsonText (Comment d))
  +:+ "}".

Fixpoint stripPrefix (p s : string) : option string :=
  match p, s with
  | EmptyString, _ => Some s
  | String a p', String b s' => if decide (a = b) then stripPrefix p' s' else None
  | String _ _, EmptyString => None
  end.

Fixpoint spanNumber (s : string) : string * string :=
  match s with
  | EmptyString => ("", "")
  | String ch s' =>
      if bool_decide (ch = "-"%char) || bool_decide (is_Some (digitVal ch))
      then let '(n, rest) := spanNumber s' in (String ch n, rest)
      else ("", s)
  end.

Fixpoint spanText (s : string) : option (string * string) :=
  match s with
  | EmptyString => None
  | String ch s' =>
      if bool_decide (ch = "034"%char) then Some ("", s')
      else '(t, rest) ← spanText s'; Some (String ch t, rest)
  end.

Definition readNumber (name : string) (s : string) : option (Z * string) :=
  s ← stripPrefix (quote +:+ name +:+ quote +:+ ":") s;
  let '(n, rest) := spanNumber s in
  z ← ParseInt n; Some (z, rest).

Definition readText (name : string) (s : string) : option (string * string) :=
  s ← stripPrefix (quote +:+ name +:+ quote +:+ ":" +:+ quote) s;
  spanText s.

Definition unmarshalDish (s : string) : option Dish :=
  s ← stripPrefix "{" s;
  '(id, s) ← readNumber "id" s;
  s ← stripPrefix "," s;
  '(name, s) ← readText "name" s;
  s ← stripPrefix "," s;
  '(taste, s) ← readNumber "taste" s;
  s ← stripPrefix "," s;
  '(price, s) ← readNumber "price" s;
  s ← stripPrefix "," s;
  '(comment, s) ← readText "comment" s;
  if decide (s = "}") then Some (mkDish id name taste price comment) else None.

#[global] Instance Dish_Codec : Codec Dish := {|
  MarshalToString d := inl (marshalDish d);
  UnmarshalFromString content _ :=
    match unmarshalDish content with
    | Some d => inl d
    | None => inr (codecFailure "unmarshal")
    end;
  Copy _ from := inl from;
|}.

Definition dish1 : Dish := mkDish 1 "GongBaoJiDing" 1 40 "awesome".

(** The instance the tests build: [New] on a reachable server, then
    [RegisterLoader("dish", GetDish)]. *)
Definition testConfig : R3.CacheConfig :=
  R3.mkConfig "localhost:6379" 0 "" 10 0 0 0 0.

Definition emptyServer : World := mkWorld ∅ [] 0.

Definition localhost : RedisClient := mkClient "localhost:6379" "" 0.

Definition fresh3 : levelCache Dish R3.CacheConfig string R3.versionInfo :=
  mkLevelCache ∅ (Some localhost) ∅
    (R3.mkConfig "localhost:6379" 0 "" 10 R3.defaultCacheInvalidInterval
       R3.defaultCleanupInterval R3.defaultUpdateLockInterval
       R3.defaultMaxUpdateBuffer)
    ∅ (mkChan [] 100 false) (mkChan [] 1 false) (Some localhost).

Definition ready3 : levelCache Dish R3.CacheConfig string R3.versionInfo :=
  mkLevelCache (c fresh3) (rdb fresh3) {[ "dish" := GetDish ]} (cfg fresh3)
    (version fresh3) (updates fresh3) (stop fresh3) (locker fresh3).

(** A [Dish] variable before any field is set. *)
Definition zeroDish : Dish := mkDish 0 "" 0 0 "".

(** The events a run added to the trace. *)
Definition added {Obj Cfg Item Note} (s s' : State Obj Cfg Item Note) : list event :=
  drop (List.length (trace s)) (trace s').

(** The version counter of the entity with value key [k] as [Refresh]
    keeps it: the integer that [INCR] finds under [jointKey ["version"; k]],
    an absent key counting as 0, [None] if the key holds no integer. *)
Definition counterOf (w : World) (k : string) : option Z :=
  match redis w !! jointKey ["version"; k] with
  | Some v => string2ll v
  | None => Some 0
  end.

(** The counter under the key that the version check of [Get] reads. *)
Definition checkedCounterOf (w : World) (namespace key : string) : option Z :=
  match redis w !! jointKey [namespace; key; "version"] with
  | Some v => string2ll v
  | None => Some 0
  end.

(** The same for the two older revisions: the configuration of the tests,
    what [New] returns for it, and that instance once "dish" is registered. *)
Definition testConfig1 : R1.CacheConfig :=
  R1.mkConfig "localhost:6379" 0 "" 10 0 0.

Definition fresh1 : levelCache Dish R1.CacheConfig Dish string :=
  mkLevelCache ∅ None ∅ testConfig1 ∅ (mkChan [] 1000 false)
    (mkChan [] 1 false) None.

Definition ready1 : levelCache Dish R1.CacheConfig Dish string :=
  mkLevelCache (c fresh1) (rdb fresh1) {[ "dish" := GetDish ]} (cfg fresh1)
    (version fresh1) (updates fresh1) (stop fresh1) (locker fresh1).

Definition testConfig2 : R2.CacheConfig :=
  R2.mkConfig "localhost:6379" 0 "" 10 0 0 0 0.

Definition fresh2 : levelCache Dish R2.CacheConfig string string :=
  mkLevelCache ∅ None ∅ testConfig2 ∅ (mkChan [] 0 false)
    (mkChan [] 1 false) (Some localhost).

Definition ready2 : levelCache Dish R2.CacheConfig string string :=
  mkLevelCache (c fresh2) (rdb fresh2) {[ "dish" := GetDish ]} (cfg fresh2)
    (version fresh2) (updates fresh2) (stop fresh2) (locker fresh2).

(** No event of the list is a command to the remote tier. *)
Definition noRoundTrip (l : list event) : Prop :=
  Forall (λ e, isRemote e = false) l.

(** No event of the list is a call of a loader. *)
Definition noLoaderCall (l : list event) : Prop :=
  Forall (λ e, isLoaderCall e = false) l.

(** A server whose remote tier already holds dish 1, at an older price. *)
Definition staleDish : Dish := mkDish 1 "GongBaoJiDing" 1 35 "awesome".

Definition servedServer : World :=
  mkWorld {[ "dish#$#1" := marshalDish staleDish ]} [] 0.

(** A notification for the entity with value key [k] waits in the queue. *)
Definition inFlight (p : levelCache Dish R3.CacheConfig string R3.versionInfo)
    (k : string) : Prop :=
  ∃ info, info ∈ buf (updates p) ∧ R3.dataKey info = k.

(** The invariant of the specification for one entity, against a reading
    [counter] of the remote version counter: the shadow version is at most
    the counter, and differs from it only with a notification in flight. *)
Definition shadowTracks (counter : option Z)
    (p : levelCache Dish R3.CacheConfig string R3.versionInfo) (k : string) : Prop :=
  ∀ v, version p !! k = Some v →
    ∃ n, counter = Some n ∧ v ≤ n ∧ (v ≠ n → inFlight p k).

(** What the code keeps: the counter that [Refresh] increments is a
    non-negative integer and the shadow version [ver !! k], if there is one,
    is at most that counter. *)
Definition shadowBelow (w : World) (ver : gmap string Z) (k : string) : Prop :=
  ∃ n, counterOf w k = Some n ∧ 0 ≤ n ∧ ∀ v, ver !! k = Some v → v ≤ n.

(** Hoare triples over the outcomes of a call: [Q] after a return, [E] after
    a panic or where the call is parked. *)
Definition triple {S A} (P : S → Prop) (m : M S A) (Q : A → S → Prop)
    (E : S → Prop) : Prop :=
  ∀ s, P s →
    match m s with
    | Done a s' => Q a s'
    | Panic s' | Parked s' => E s'
    end.

(** The invariant kept for the entity with value key [k0]: the shadow
    version of the running instance and the shadow version [ver] of any other
    instance on the same server both stay below the counter. *)
Definition shadowInv {Obj Cfg Item Note} (k0 : string) (ver : gmap string Z)
    (s : State Obj Cfg Item Note) : Prop :=
  shadowBelow (world s) (version (self s)) k0 ∧ shadowBelow (world s) ver k0.

(** Two instances A and B on one server: A loads dish 1 and refreshes it,
    then B refreshes it. *)
Definition afterGetA : State Dish R3.CacheConfig string R3.versionInfo :=
  final (R3.Get "1" zeroDish (mkState emptyServer ready3 [])).

Definition afterRefreshA : State Dish R3.CacheConfig string R3.versionInfo :=
  final (R3.Refresh 1 "dish" "1" afterGetA).

Definition afterRefreshB : State Dish R3.CacheConfig string R3.versionInfo :=
  final (R3.Refresh 1 "dish" "1" (mkState (world afterRefreshA) ready3 [])).

(** An instance with a notification for dish 1 in its queue, on the server
    that holds dish 1. *)
Definition notified : State Dish R3.CacheConfig string R3.versionInfo :=
  mkState servedServer
    (setUpdates ready3 (mkChan [R3.mkInfo "dish#$#1" 1] 100 false)) [].

(** ** Several instances on one server

    A system is the server with the instances that share it. One step is a
    call of [Get] or of [Refresh] (with its goroutine) by one instance; a
    call that panics or blocks leaves its instance where it stopped. *)
Section System.
Context {Obj : Type} `{!Cacheable Obj, !Codec Obj}.

Inductive call : Type :=
| CallGet (key : string) (obj : Obj)
| CallRefresh (fuel : nat) (namespace key : string).

(** The value key of the entity that a call is about. *)
Definition valueKey (cl : call) : string :=
  match cl with
  | CallGet key obj => jointKey [Namespace obj; key]
  | CallRefresh _ namespace key => jointKey [namespace; key]
  end.

Definition perform (cl : call)
    (s : State Obj R3.CacheConfig string R3.versionInfo)
  : State Obj R3.CacheConfig string R3.versionInfo :=
  match cl with
  | CallGet key obj => final (R3.Get key obj s)
  | CallRefresh fuel namespace key => final (R3.Refresh fuel namespace key s)
  end.

Definition System : Type :=
  World * list (levelCache Obj R3.CacheConfig string R3.versionInfo).

(** The instance at index [step.1] makes the call [step.2]; a step of an
    instance that is not there does nothing. *)
Definition act (sys : System) (step : nat * call) : System :=
  match sys.2 !! step.1 with
  | Some p =>
      let s := perform step.2 (mkState sys.1 p []) in
      (world s, <[step.1 := self s]> sys.2)
  | None => sys
  end.

Definition runAll (sched : list (nat * call)) (sys : System) : System :=
  foldl act sys sched.

(** Every instance of the system has its shadow version of [k0] at most the
    counter, which is not negative. *)
Definition systemBelow (k0 : string) (sys : System) : Prop :=
  shadowBelow sys.1 ∅ k0
  ∧ ∀ p, p ∈ sys.2 → shadowBelow sys.1 (version p) k0.

End System.

(** The string holds no byte of the separator's first character. *)
Fixpoint noHash (s : string) : bool :=
  match s with
  | EmptyString => true
  | String ch s' => negb (bool_decide (ch = "#"%char)) && noHash s'
  end.

(** A server on which the counter that [Get] checks for dish 1 stands at 5,
    and an instance that holds dish 1 at shadow version 0, with the queue
    [q]. *)
Definition checkedServer : World :=
  mkWorld {[ "dish#$#1#$#version" := "5" ]} [] 0.

Definition behind (q : chan R3.versionInfo)
  : State Dish R3.CacheConfig string R3.versionInfo :=
  mkState checkedServer
    (mkLevelCache {[ "dish#$#1" := marshalDish staleDish ]} (rdb ready3)
       (loaders ready3) (cfg ready3) {[ "dish#$#1" := 0 ]} q (stop ready3)
       (locker ready3)) [].

(** An empty server that the commands miss or reach as [out] says. *)
Definition flakyServer (out : list bool) : World := mkWorld ∅ out 0.


(** What a call may have written between [s0] and [s]: the local tier and
    the shadow map at the keys of [lk], the remote tier at the keys of [rk],
    the queue if [queue] is set; the registry, the configuration, the
    clients and the stop channel are those of [s0]. *)
Definition footprint {Obj Cfg Item Note} (lk rk : list string) (queue : bool)
    (s0 s : State Obj Cfg Item Note) : Prop :=
  (∀ k, k ∉ lk → c (self s) !! k = c (self s0) !! k
                 ∧ version (self s) !! k = version (self s0) !! k)
  ∧ (∀ k, k ∉ rk → redis (world s) !! k = redis (world s0) !! k)
  ∧ (queue = false → updates (self s) = updates (self s0))
  ∧ loaders (self s) = loaders (self s0)
  ∧ cfg (self s) = cfg (self s0)
  ∧ rdb (self s) = rdb (self s0)
  ∧ locker (self s) = locker (self s0)
  ∧ stop (self s) = stop (self s0).

(** The shadow map [ver] against the map [ver0] before a [Get] of the entity
    with value key [k]: the same, or [ver0] with the seed 0 at [k] where it
    had no entry. *)
Definition seeded (k : string) (ver0 ver : gmap string Z) : Prop :=
  ver = ver0 ∨ (ver0 !! k = None ∧ ver = <[k := 0]> ver0).


(** The same instance on a server that holds dish 1 at its new price and the
    checked counter at 5. *)
Definition changedServer : World :=
  mkWorld {[ "dish#$#1#$#version" := "5";
             "dish#$#1" := marshalDish dish1 ]} [] 0.

Definition outdated : State Dish R3.CacheConfig string R3.versionInfo :=
  mkState changedServer (self (behind (updates ready3))) [].


(** A server on which the lock of dish 1 is held, and one on which the
    counter of dish 1 holds no integer. *)
Definition lockedServer : World :=
  mkWorld {[ "lock#$#dish#$#1" := "token-0" ]} [] 1.

Definition garbledServer : World :=
  mkWorld {[ "version#$#dish#$#1" := "one" ]} [] 0.


Section Isolation.
Context {Obj : Type} `{!Cacheable Obj, !Codec Obj}.

(** The keys of the remote tier that a call may write: the value key of its
    entity and, for [Refresh], the lock key and the key of the counter. *)
Definition remoteKeys (cl : call (Obj := Obj)) : list string :=
  match cl with
  | CallGet _ _ => [valueKey cl]
  | CallRefresh _ _ _ =>
      [valueKey cl; jointKey ["lock"; valueKey cl];
       jointKey ["version"; valueKey cl]]
  end.

(** The instance [p'] holds for the value key [k] what [p] holds, in the
    local tier and in the shadow map, and has the registry of [p]. *)
Definition sameEntry (k : string)
    (p p' : levelCache Obj R3.CacheConfig string R3.versionInfo) : Prop :=
  c p' !! k = c p !! k
  ∧ version p' !! k = version p !! k
  ∧ loaders p' = loaders p.

End Isolation.


(** * Properties *)

Ltac munfold :=
  unfold mbind, M_bind, mret, M_ret, panic, park, getSelf, setSelf, emit,
    onWorld, liftW in *.

Ltac msimpl :=
  cbn [world self trace c rdb loaders cfg version updates stop locker fst snd
       final buf capacity closed redis outage nonce setRedis negb lockKey
       lockToken] in *.

Ltac mrun :=
  unfold rdbGet, rdbSet, rdbIncr, withRdb, lockerObtain, release, cGet, cSet,
    setVersion, setLoader, send, callLoader, setUpdates in *;
  munfold; msimpl.

(** Run the goal forward with the equations at hand. *)
Ltac mgo :=
  repeat (msimpl;
          match goal with
          | H : ?l = _ |- context [?l] => rewrite H
          end);
  msimpl.

(** ** Tools *)

(** *** Decimal numerals: [ParseInt] reads what [pretty] writes *)

Lemma digitVal_bounds ch d : digitVal ch = Some d → 0 ≤ d ≤ 9.
Proof.
  unfold digitVal. destruct (_ && _) eqn:Hrange; [|discriminate].
  intros [= <-]. apply andb_true_iff in Hrange as [?%Z.leb_le ?%Z.leb_le]. lia.
Qed.

Lemma digitVal_pretty d :
  (d < 10)%N → digitVal (pretty_N_char d) = Some (Z.of_N d).
Proof.
  intros Hd.
  assert (d = 0 ∨ d = 1 ∨ d = 2 ∨ d = 3 ∨ d = 4 ∨ d = 5 ∨ d = 6 ∨ d = 7
          ∨ d = 8 ∨ d = 9)%N as Hcases by lia.
  repeat (destruct Hcases as [->|Hcases]; [reflexivity|]).
  subst d. reflexivity.
Qed.

Lemma parseDigits_nonneg s : ∀ acc n, parseDigits s acc = Some n → 0 ≤ acc → 0 ≤ n.
Proof.
  induction s as [|ch s IH]; cbn; intros acc n Hparse Hacc.
  - now simplify_eq.
  - destruct (digitVal ch) as [d|] eqn:Hd; [|discriminate].
    apply digitVal_bounds in Hd. apply (IH _ _ Hparse). lia.
Qed.

Lemma parseDigits_pretty_go x :
  ∃ k : nat, ∀ s acc,
    parseDigits (pretty_N_go x s) acc
    = parseDigits s (acc * 10 ^ Z.of_nat k + Z.of_N x).
Proof.
  induction (N.lt_wf_0 x) as [x _ IH].
  destruct (decide (x = 0)%N) as [->|Hpos].
  - exists O. intros s acc. rewrite pretty_N_go_0. f_equal. cbn. lia.
  - destruct (IH (x `div` 10)%N) as [k Hk]; [apply N.div_lt; lia|].
    exists (S k). intros s acc. rewrite pretty_N_go_step by lia.
    rewrite Hk. cbn [parseDigits].
    rewrite digitVal_pretty by (apply N.mod_lt; lia). f_equal.
    rewrite Nat2Z.inj_succ, Z.pow_succ_r by lia.
    rewrite (N.div_mod x 10) at 3 by lia.
    rewrite N2Z.inj_add, N2Z.inj_mul. cbn. lia.
Qed.

Lemma parseDigits_pretty x : parseDigits (pretty_N_go x "") 0 = Some (Z.of_N x).
Proof.
  destruct (parseDigits_pretty_go x) as [k Hk]. rewrite Hk. cbn. f_equal; lia.
Qed.

Lemma pretty_N_go_nonempty x : ∀ ch s, pretty_N_go x (String ch s) ≠ "".
Proof.
  induction (N.lt_wf_0 x) as [x _ IH]. intros ch s.
  destruct (decide (x = 0)%N) as [->|Hpos].
  - now rewrite pretty_N_go_0.
  - rewrite pretty_N_go_step by lia. apply IH. apply N.div_lt; lia.
Qed.

(** The numeral of a positive number starts with a digit. *)
Lemma pretty_positive_digits p :
  ∃ ch rest, pretty (N.pos p) = String ch rest
    ∧ is_Some (digitVal ch)
    ∧ parseDigits (String ch rest) 0 = Some (Z.pos p).
Proof.
  unfold pretty, pretty_N. destruct (decide _) as [|_]; [discriminate|].
  pose proof (parseDigits_pretty (N.pos p)) as Hparse.
  destruct (pretty_N_go (N.pos p) "") as [|ch rest] eqn:Hgo.
  - rewrite pretty_N_go_step in Hgo by lia.
    now apply pretty_N_go_nonempty in Hgo.
  - exists ch, rest. split; [reflexivity|]. split; [|exact Hparse].
    cbn in Hparse. destruct (digitVal ch); [eauto|discriminate].
Qed.

Lemma ParseInt_pretty z :
  - 2 ^ 63 ≤ z < 2 ^ 63 → ParseInt (pretty z) = Some z.
Proof.
  intros Hrange. destruct z as [|p|p]; [reflexivity| |].
  - change (pretty (Z.pos p)) with (pretty (N.pos p)).
    destruct (pretty_positive_digits p) as (ch & rest & -> & [d Hd] & Hparse).
    unfold ParseInt, ParseUint.
    assert (bool_decide (ch = "-"%char) = false) as ->.
    { apply bool_decide_eq_false. intros ->. discriminate. }
    assert (bool_decide (ch = "+"%char) = false) as ->.
    { apply bool_decide_eq_false. intros ->. discriminate. }
    cbn [orb]. rewrite Hparse.
    destruct (Z.ltb_spec (Z.pos p) (2 ^ 64)); [|lia].
    destruct (Z.ltb_spec (Z.pos p) (2 ^ 63)); [reflexivity|lia].
  - change (pretty (Z.neg p)) with ("-" +:+ pretty (N.pos p)).
    destruct (pretty_positive_digits p) as (ch & rest & -> & [d Hd] & Hparse).
    cbv [append].
    change (ParseInt (String "-" (String ch rest)))
      with (match ParseUint (String ch rest) with
            | Some un => if un <=? 2 ^ 63 then Some (- un) else None
            | None => None
            end).
    unfold ParseUint. rewrite Hparse.
    destruct (Z.ltb_spec (Z.pos p) (2 ^ 64)); [|lia].
    destruct (Z.leb_spec (Z.pos p) (2 ^ 63)); [reflexivity|lia].
Qed.

Lemma ParseUint_range s n : ParseUint s = Some n → 0 ≤ n < 2 ^ 64.
Proof.
  unfold ParseUint. destruct s as [|ch s]; [discriminate|].
  destruct (parseDigits _ 0) as [un|] eqn:Hparse; [|discriminate].
  apply parseDigits_nonneg in Hparse; [|lia].
  destruct (Z.ltb_spec un (2 ^ 64)); [|discriminate]. intros [= <-]. lia.
Qed.

Lemma ParseInt_range s n : ParseInt s = Some n → - 2 ^ 63 ≤ n < 2 ^ 63.
Proof.
  unfold ParseInt. destruct s as [|ch s]; [discriminate|]. cbv zeta.
  destruct (ParseUint _) as [un|] eqn:Hparse; [|discriminate].
  apply ParseUint_range in Hparse.
  destruct (bool_decide (ch = "-"%char)).
  - destruct (Z.leb_spec un (2 ^ 63)); [|discriminate]. intros [= <-]. lia.
  - destruct (Z.ltb_spec un (2 ^ 63)); [|discriminate]. intros [= <-]. lia.
Qed.

Lemma string2ll_pretty z :
  - 2 ^ 63 ≤ z < 2 ^ 63 → string2ll (pretty z) = Some z.
Proof.
  intros Hrange. unfold string2ll. rewrite (ParseInt_pretty _ Hrange).
  destruct (decide _); [reflexivity|contradiction].
Qed.

Lemma string2ll_range s n : string2ll s = Some n → - 2 ^ 63 ≤ n < 2 ^ 63.
Proof.
  unfold string2ll. destruct (ParseInt s) as [z|] eqn:Hparse; [|discriminate].
  destruct (decide _); [|discriminate]. intros [= <-].
  exact (ParseInt_range _ _ Hparse).
Qed.

Lemma counterOf_range w k n : counterOf w k = Some n → - 2 ^ 63 ≤ n < 2 ^ 63.
Proof.
  unfold counterOf. destruct (redis w !! _) as [v|].
  - apply string2ll_range.
  - intros [= <-]. lia.
Qed.

(** *** Keys *)

Ltac keys := cbv [jointKey String.concat String.append cacheKeyJoint] in *.

Lemma lockKey_ne_value k : jointKey ["lock"; k] ≠ k.
Proof.
  intros Heq. apply (f_equal String.length) in Heq. keys. cbn in Heq. lia.
Qed.

Lemma versionKey_ne_value k : jointKey ["version"; k] ≠ k.
Proof.
  intros Heq. apply (f_equal String.length) in Heq. keys. cbn in Heq. lia.
Qed.

Lemma lockKey_ne_versionKey k k' : jointKey ["lock"; k] ≠ jointKey ["version"; k'].
Proof. keys. discriminate. Qed.

Lemma versionKey_inj k k' :
  jointKey ["version"; k] = jointKey ["version"; k'] → k = k'.
Proof. keys. intros Heq. now simplify_eq. Qed.

Lemma append_length (a b : string) :
  String.length (a +:+ b) = (String.length a + String.length b)%nat.
Proof.
  induction a as [|ch a IH]; [reflexivity|].
  change (String ch a +:+ b) with (String ch (a +:+ b)).
  cbn [String.length]. now rewrite IH.
Qed.

Lemma checkedKey_ne_value namespace key :
  jointKey [namespace; key; "version"] ≠ jointKey [namespace; key].
Proof.
  intros Heq. apply (f_equal String.length) in Heq.
  cbv [jointKey String.concat cacheKeyJoint] in Heq.
  rewrite !append_length in Heq. cbn in Heq. lia.
Qed.

Lemma checkedKey_ne_lockKey namespace key :
  jointKey [namespace; key; "version"]
  ≠ jointKey ["lock"; jointKey [namespace; key]].
Proof.
  intros Heq. apply (f_equal String.length) in Heq.
  cbv [jointKey String.concat cacheKeyJoint] in Heq.
  rewrite !append_length in Heq. cbn in Heq. lia.
Qed.

(** *** The server while every command reaches it *)

Lemma reach_up w : outage w = [] → reach w = (true, w).
Proof. intros Hup. unfold reach. now rewrite Hup. Qed.

Lemma redisGet_up key w :
  outage w = [] →
  redisGet key w
  = (match redis w !! key with
     | Some v => (v, None)
     | None => ("", Some redisNil)
     end, w).
Proof.
  intros Hup. unfold redisGet. rewrite (reach_up _ Hup).
  now destruct (redis w !! key).
Qed.

Lemma redisSet_up key value w :
  outage w = [] →
  redisSet key value w = (None, setRedis w (<[key := value]> (redis w))).
Proof. intros Hup. unfold redisSet. now rewrite (reach_up _ Hup). Qed.

Lemma lockObtain_up key w :
  outage w = [] →
  redis w !! key = None →
  lockObtain key w
  = ((mkLock key ("token-" +:+ pretty (nonce w)), None),
     mkWorld (<[key := "token-" +:+ pretty (nonce w)]> (redis w)) []
       (nonce w + 1)%N).
Proof.
  intros Hup Hfree. unfold lockObtain, reach. cbn. rewrite Hup. cbn.
  now rewrite Hfree.
Qed.

Lemma lockRelease_up l w :
  outage w = [] →
  redis w !! lockKey l = Some (lockToken l) →
  lockRelease l w = (None, setRedis w (delete (lockKey l) (redis w))).
Proof.
  intros Hup Hheld. unfold lockRelease. rewrite (reach_up _ Hup).
  destruct (decide _); [reflexivity|contradiction].
Qed.

Lemma redisIncr_up k w n :
  outage w = [] →
  counterOf w k = Some n →
  n < 2 ^ 63 - 1 →
  redisIncr (jointKey ["version"; k]) w
  = ((n + 1, None),
     setRedis w (<[jointKey ["version"; k] := pretty (n + 1)]> (redis w))).
Proof.
  intros Hup Hcount Hmax. unfold redisIncr. rewrite (reach_up _ Hup).
  unfold counterOf in Hcount. rewrite Hcount.
  destruct (Z.ltb_spec n (2 ^ 63 - 1)); [reflexivity|lia].
Qed.

(** ** Construction *)

Section Construction.
Context {Obj : Type} `{!Cacheable Obj, !Codec Obj}.

Lemma R1_New_rdb conf w (lc : levelCache Obj R1.CacheConfig Obj string) w' :
  R1.New conf w = Done (Some lc, None) w' → rdb lc = None.
Proof.
  unfold R1.New. munfold. destruct (redisPing w) as [[err|] w1]; intros Hnew;
    now simplify_eq.
Qed.

Lemma R2_New_rdb conf w (lc : levelCache Obj R2.CacheConfig string string) w' :
  R2.New conf w = Done (Some lc, None) w' → rdb lc = None.
Proof.
  unfold R2.New. munfold. destruct (_ <? 0); [discriminate|].
  destruct (redisPing w) as [[err|] w1]; intros Hnew; now simplify_eq.
Qed.

Lemma R3_New_rdb conf w (lc : levelCache Obj R3.CacheConfig string R3.versionInfo) w' :
  R3.New conf w = Done (Some lc, None) w' →
  rdb lc = Some (mkClient (R3.RedisAddr conf) (R3.RedisPassword conf)
                   (R3.RedisDb conf))
  ∧ locker lc = rdb lc
  ∧ (redisPing w).1 = None.
Proof.
  unfold R3.New, R3.checkAndLoadDefault. munfold.
  destruct (decide (R3.RedisAddr conf = "")); [discriminate|].
  cbn [R3.MaxUpdateBuffer R3.RedisAddr R3.RedisPassword R3.RedisDb].
  destruct (_ <? 0); [discriminate|].
  destruct (redisPing w) as [[err|] w1]; intros Hnew; now simplify_eq.
Qed.

Lemma R1_Get_panics (s : State Obj R1.CacheConfig Obj string) key obj :
  rdb (self s) = None → R1.Get key obj s = Panic s.
Proof.
  intros Hnil. unfold R1.Get, R1.checkCacheUpdate. mrun. now rewrite Hnil.
Qed.

Lemma R2_Get_panics (s : State Obj R2.CacheConfig string string) key obj :
  rdb (self s) = None → R2.Get key obj s = Panic s.
Proof.
  intros Hnil. unfold R2.Get, R2.checkCacheUpdate. mrun. now rewrite Hnil.
Qed.

End Construction.

(** C3. On the configuration of the tests and a server that answers the
    ping, [New] of [src/cache.go] and [New] of [src/unnamed/part_000] return
    an instance whose field [rdb] was never assigned; the first [Get] and the
    first [Refresh] on it panic at their first command to the remote tier.
    [New] of the latest revision assigns the client that it pinged. *)
Theorem New_leaves_rdb_unset :
  (R1.New testConfig1 emptyServer = Done (Some fresh1, None) emptyServer
   ∧ rdb fresh1 = None
   ∧ R1.RegisterLoader "dish" GetDish (mkState emptyServer fresh1 [])
     = Done () (mkState emptyServer ready1 [])
   ∧ R1.Get "1" zeroDish (mkState emptyServer ready1 [])
     = Panic (mkState emptyServer ready1 [])
   ∧ R1.Refresh "dish" "1" (mkState emptyServer ready1 [])
     = Panic (mkState emptyServer ready1 [LoaderCall "dish" "1"]))
  ∧ (R2.New testConfig2 emptyServer = Done (Some fresh2, None) emptyServer
     ∧ rdb fresh2 = None
     ∧ R2.RegisterLoader "dish" GetDish (mkState emptyServer fresh2 [])
       = Done None (mkState emptyServer ready2 [])
     ∧ R2.Get "1" zeroDish (mkState emptyServer ready2 [])
       = Panic (mkState emptyServer ready2 [])
     ∧ ∃ s', R2.Refresh 1 "dish" "1" (mkState emptyServer ready2 []) = Panic s'
         ∧ trace s' = [LockObtain "lock#$#dish#$#1"; LoaderCall "dish" "1"]
         ∧ redis (world s') !! "lock#$#dish#$#1" = Some "token-0")
  ∧ (R3.New testConfig emptyServer = Done (Some fresh3, None) emptyServer
     ∧ rdb fresh3 = Some localhost).
Proof.
  split; [|split].
  - repeat split; vm_compute; reflexivity.
  - do 4 (split; [vm_compute; reflexivity|]).
    eexists. split; [vm_compute; reflexivity|]. split; reflexivity.
  - split; vm_compute; reflexivity.
Qed.

(** ** The loader registry *)

Section Registry.
Context {Obj : Type} `{!Cacheable Obj, !Codec Obj}.
Implicit Types s : State Obj R3.CacheConfig string R3.versionInfo.

(** C10. [RegisterLoader] on a namespace that is bound returns the error
    "data loader [namespace] existed" and leaves the instance as it was; on
    a namespace that is not bound it returns no error and binds the loader. *)
Theorem RegisterLoader_bound_or_fresh s namespace (loader : DataLoader Obj) :
  (∀ old, loaders (self s) !! namespace = Some old →
     R3.RegisterLoader namespace loader s
     = Done (Some (Errorf ("data loader [" +:+ namespace +:+ "] existed"))) s)
  ∧ (loaders (self s) !! namespace = None →
     ∃ s', R3.RegisterLoader namespace loader s = Done None s'
           ∧ loaders (self s') = <[namespace := loader]> (loaders (self s))
           ∧ loaders (self s') !! namespace = Some loader
           ∧ world s' = world s ∧ trace s' = trace s
           ∧ c (self s') = c (self s) ∧ version (self s') = version (self s)).
Proof.
  split.
  - intros old Hold. unfold R3.RegisterLoader. mrun. now rewrite Hold.
  - intros Hfree. unfold R3.RegisterLoader. mrun. rewrite Hfree.
    eexists. split; [reflexivity|]. cbn.
    rewrite lookup_insert_eq. repeat split.
Qed.

End Registry.

(** C10 at the test's loader: a second registration of "dish" is refused,
    the registration of "soup" is taken. *)
Lemma RegisterLoader_bound_or_fresh_witness :
  loaders ready3 !! "dish" = Some GetDish
  ∧ R3.RegisterLoader "dish" (λ _, inl dish1) (mkState emptyServer ready3 [])
    = Done (Some (Errorf "data loader [dish] existed"))
        (mkState emptyServer ready3 [])
  ∧ loaders ready3 !! "soup" = None
  ∧ ∃ s', R3.RegisterLoader "soup" GetDish (mkState emptyServer ready3 [])
          = Done None s'
          ∧ loaders (self s') !! "soup" = Some GetDish.
Proof.
  pose proof (RegisterLoader_bound_or_fresh (mkState emptyServer ready3 [])
                "dish" (λ _, inl dish1)) as [Hbound _].
  pose proof (RegisterLoader_bound_or_fresh (mkState emptyServer ready3 [])
                "soup" GetDish) as [_ Hfresh].
  split; [reflexivity|]. split; [exact (Hbound GetDish eq_refl)|].
  split; [reflexivity|].
  destruct (Hfresh eq_refl) as (s' & Hrun & _ & Hl & _).
  exists s'. split; assumption.
Defined.

(** ** The read path *)

Lemma redisGet_redis key w : redis (redisGet key w).2 = redis w.
Proof.
  unfold redisGet, reach. destruct (outage w) as [|[] out]; cbn;
    try destruct (redis w !! key); reflexivity.
Qed.

Section ReadPath.
Context {Obj : Type} `{!Cacheable Obj, !Codec Obj}.
Implicit Types s : State Obj R3.CacheConfig string R3.versionInfo.

Lemma Get_unfold key obj s :
  R3.Get key obj s
  = match R3.checkCacheUpdate (Namespace obj) key s with
    | Done _ s1 => R3.get key obj s1
    | Panic s1 => Panic s1
    | Parked s1 => Parked s1
    end.
Proof. reflexivity. Qed.

(** The version check sends one [GET] for the version key and touches
    nothing but the queue, however it ends. *)
Lemma checkCacheUpdate_frame s namespace key cl :
  rdb (self s) = Some cl →
  let s1 := final (R3.checkCacheUpdate namespace key s) in
  trace s1 = trace s ++ [RedisGet (jointKey [namespace; key; "version"])]
  ∧ world s1 = (redisGet (jointKey [namespace; key; "version"]) (world s)).2
  ∧ c (self s1) = c (self s)
  ∧ version (self s1) = version (self s)
  ∧ loaders (self s1) = loaders (self s)
  ∧ rdb (self s1) = rdb (self s)
  ∧ locker (self s1) = locker (self s).
Proof.
  intros Hrdb s1. subst s1. unfold R3.checkCacheUpdate. mrun.
  rewrite Hrdb. msimpl.
  destruct (redisGet _ (world s)) as [[content [err|]] w]; msimpl;
    [repeat split; auto|].
  destruct (ParseInt content) as [latest|]; msimpl; [|repeat split; auto].
  destruct (version (self s) !! _) as [current|]; msimpl; [|repeat split; auto].
  destruct (decide (latest ≠ current)); msimpl; [|repeat split; auto].
  destruct (closed (updates (self s))); msimpl; [repeat split; auto|].
  destruct (decide _); msimpl; repeat split; auto.
Qed.

(** Without a shadow version the check returns and leaves the instance as
    it is. *)
Lemma checkCacheUpdate_bootstrap s namespace key cl :
  rdb (self s) = Some cl →
  version (self s) !! jointKey [namespace; key] = None →
  R3.checkCacheUpdate namespace key s
  = Done () (mkState
               (redisGet (jointKey [namespace; key; "version"]) (world s)).2
               (self s)
               (trace s ++ [RedisGet (jointKey [namespace; key; "version"])])).
Proof.
  intros Hrdb Hshadow. unfold R3.checkCacheUpdate. mrun. rewrite Hrdb. msimpl.
  destruct (redisGet _ (world s)) as [[content [err|]] w]; msimpl;
    [reflexivity|].
  destruct (ParseInt content) as [latest|]; msimpl; [|reflexivity].
  now rewrite Hshadow.
Qed.

(** [get] on a local hit: no event, no change. *)
Lemma get_local_hit s key obj content :
  c (self s) !! jointKey [Namespace obj; key] = Some content →
  R3.get key obj s
  = Done (match UnmarshalFromString content obj with
          | inl obj' => (obj', None)
          | inr err => (obj, Some err)
          end) s.
Proof.
  intros Hhit. unfold R3.get. mrun. rewrite Hhit.
  now destruct (UnmarshalFromString content obj).
Qed.

(** [get] on a miss of both tiers goes on to the loader. *)
Lemma get_full_miss s key obj cl :
  rdb (self s) = Some cl →
  c (self s) !! jointKey [Namespace obj; key] = None →
  (redisGet (jointKey [Namespace obj; key]) (world s)).1 = ("", Some redisNil) →
  R3.get key obj s
  = R3.loadThrough (jointKey [Namespace obj; key]) key obj
      (mkState (redisGet (jointKey [Namespace obj; key]) (world s)).2 (self s)
         (trace s ++ [RedisGet (jointKey [Namespace obj; key])])).
Proof.
  intros Hrdb Hlocal Hremote. unfold R3.get. mrun. rewrite Hlocal, Hrdb. msimpl.
  destruct (redisGet _ (world s)) as [[content err] w]. msimpl.
  injection Hremote as -> ->.
  rewrite bool_decide_false by (intros [_ ?]; congruence).
  destruct (decide ("" ≠ "")); [congruence|reflexivity].
Qed.

(** The loader's error leaves [loadThrough] at once. *)
Lemma loadThrough_error s k key obj (loader : DataLoader Obj) err :
  loaders (self s) !! Namespace obj = Some loader →
  loader key = inr err →
  R3.loadThrough k key obj s
  = Done (obj, Some err)
      (mkState (world s) (self s) (trace s ++ [LoaderCall (Namespace obj) key])).
Proof.
  intros Hloader Hload. unfold R3.loadThrough. mrun.
  now rewrite Hloader, Hload.
Qed.

(** The loader's value is written through. *)
Lemma loadThrough_value s k key obj (loader : DataLoader Obj) data obj' cl :
  rdb (self s) = Some cl →
  loaders (self s) !! Namespace obj = Some loader →
  loader key = inl data →
  Copy obj data = inl obj' →
  ∃ s', R3.loadThrough k key obj s = Done (obj', None) s'
    ∧ trace s'
      = trace s ++ [LoaderCall (Namespace obj) key; RedisSet k (toJson obj')]
    ∧ world s' = (redisSet k (toJson obj') (world s)).2
    ∧ c (self s') = <[k := toJson obj']> (c (self s))
    ∧ version (self s')
      = match version (self s) !! k with
        | Some _ => version (self s)
        | None => <[k := 0]> (version (self s))
        end
    ∧ updates (self s') = updates (self s)
    ∧ loaders (self s') = loaders (self s)
    ∧ rdb (self s') = rdb (self s)
    ∧ locker (self s') = locker (self s).
Proof.
  intros Hrdb Hloader Hload Hcopy. unfold R3.loadThrough. mrun.
  mgo. destruct (redisSet k (toJson obj') (world s)) as [e w]. msimpl.
  destruct (version (self s) !! k); msimpl;
    (eexists; split; [reflexivity|]); msimpl; rewrite <- app_assoc;
    repeat split; auto.
Qed.

End ReadPath.

Section FirstGet.
Context {Obj : Type} `{!Cacheable Obj, !Codec Obj}.
Implicit Types s : State Obj R3.CacheConfig string R3.versionInfo.

(** With room in an open queue the version check returns. *)
Lemma checkCacheUpdate_returns s namespace key cl :
  rdb (self s) = Some cl →
  closed (updates (self s)) = false →
  (List.length (buf (updates (self s))) < capacity (updates (self s)))%nat →
  ∃ s1, R3.checkCacheUpdate namespace key s = Done () s1.
Proof.
  intros Hrdb Hopen Hroom. unfold R3.checkCacheUpdate. mrun. mgo.
  destruct (redisGet _ (world s)) as [[content [err|]] w]; msimpl; eauto.
  destruct (ParseInt content) as [latest|]; msimpl; eauto.
  destruct (version (self s) !! _) as [current|]; msimpl; eauto.
  destruct (decide (latest ≠ current)); msimpl; eauto.
  rewrite Hopen. destruct (decide _); [eauto|lia].
Qed.

(** C5. A first [Get] of an entity that has no local entry, no remote entry
    and no shadow version, on a server that is reached and with a loader
    that returns a value: the loader is called once, both tiers end with the
    same serialized value under the value key, and the shadow version is 0. *)
Theorem first_Get_loads_once s key obj (loader : DataLoader Obj) data obj' cl :
  rdb (self s) = Some cl →
  outage (world s) = [] →
  c (self s) !! jointKey [Namespace obj; key] = None →
  redis (world s) !! jointKey [Namespace obj; key] = None →
  version (self s) !! jointKey [Namespace obj; key] = None →
  loaders (self s) !! Namespace obj = Some loader →
  loader key = inl data →
  Copy obj data = inl obj' →
  ∃ s', R3.Get key obj s = Done (obj', None) s'
    ∧ added s s'
      = [RedisGet (jointKey [Namespace obj; key; "version"]);
         RedisGet (jointKey [Namespace obj; key]);
         LoaderCall (Namespace obj) key;
         RedisSet (jointKey [Namespace obj; key]) (toJson obj')]
    ∧ c (self s') !! jointKey [Namespace obj; key] = Some (toJson obj')
    ∧ redis (world s') !! jointKey [Namespace obj; key] = Some (toJson obj')
    ∧ version (self s') !! jointKey [Namespace obj; key] = Some 0.
Proof.
  intros Hrdb Hup Hlocal Hremote Hshadow Hloader Hload Hcopy.
  rewrite Get_unfold, (checkCacheUpdate_bootstrap _ _ _ _ Hrdb Hshadow).
  rewrite (redisGet_up _ _ Hup). msimpl.
  rewrite (get_full_miss _ _ _ cl); msimpl; try assumption;
    [|now rewrite (redisGet_up _ _ Hup), Hremote].
  rewrite (redisGet_up _ _ Hup). msimpl.
  edestruct (loadThrough_value
               (mkState (world s) (self s)
                  ((trace s ++ [RedisGet (jointKey [Namespace obj; key; "version"])])
                   ++ [RedisGet (jointKey [Namespace obj; key])]))
               (jointKey [Namespace obj; key]) key obj loader data obj' cl)
    as (s' & Hrun & Htrace & Hworld & Hc & Hversion & _); try eassumption.
  exists s'. split; [exact Hrun|]. unfold added. msimpl.
  rewrite Htrace, Hworld, Hc, Hversion, Hshadow, (redisSet_up _ _ _ Hup).
  msimpl. rewrite <- !app_assoc, drop_app_length, !lookup_insert_eq.
  repeat split.
Qed.

(** C9. A [Get] that misses both tiers and whose loader returns an error
    returns that very error, and leaves the local tier, the remote key space
    and the shadow versions as they were. (The server is reached and the
    queue has room, so that the version check before [get] returns.) *)
Theorem Get_loader_error s key obj (loader : DataLoader Obj) err cl :
  rdb (self s) = Some cl →
  outage (world s) = [] →
  closed (updates (self s)) = false →
  (List.length (buf (updates (self s))) < capacity (updates (self s)))%nat →
  c (self s) !! jointKey [Namespace obj; key] = None →
  redis (world s) !! jointKey [Namespace obj; key] = None →
  loaders (self s) !! Namespace obj = Some loader →
  loader key = inr err →
  ∃ s', R3.Get key obj s = Done (obj, Some err) s'
    ∧ c (self s') = c (self s)
    ∧ redis (world s') = redis (world s)
    ∧ version (self s') = version (self s)
    ∧ added s s'
      = [RedisGet (jointKey [Namespace obj; key; "version"]);
         RedisGet (jointKey [Namespace obj; key]);
         LoaderCall (Namespace obj) key].
Proof.
  intros Hrdb Hup Hopen Hroom Hlocal Hremote Hloader Hload.
  destruct (checkCacheUpdate_returns s (Namespace obj) key cl Hrdb Hopen Hroom)
    as [s1 Hcheck].
  pose proof (checkCacheUpdate_frame s (Namespace obj) key cl Hrdb) as Hframe.
  rewrite Hcheck in Hframe. msimpl.
  destruct Hframe as (Htrace & Hworld & Hc & Hversion & Hloaders & Hrdb1 & _).
  rewrite (redisGet_up _ _ Hup) in Hworld. msimpl.
  rewrite Get_unfold, Hcheck.
  rewrite (get_full_miss _ _ _ cl); try congruence;
    [|rewrite Hworld, (redisGet_up _ _ Hup), Hremote; reflexivity].
  rewrite (loadThrough_error _ _ _ _ loader err); msimpl;
    [|congruence|assumption].
  eexists. split; [reflexivity|]. unfold added. msimpl.
  rewrite Hworld, (redisGet_up _ _ Hup), Htrace. msimpl.
  rewrite <- !app_assoc, drop_app_length. repeat split; assumption.
Qed.

End FirstGet.

(** C5 at the first [Get] of the tests: dish 1, on an empty server. *)
Lemma first_Get_loads_once_witness :
  rdb ready3 = Some localhost
  ∧ outage emptyServer = []
  ∧ c ready3 !! jointKey ["dish"; "1"] = None
  ∧ redis emptyServer !! jointKey ["dish"; "1"] = None
  ∧ version ready3 !! jointKey ["dish"; "1"] = None
  ∧ loaders ready3 !! "dish" = Some GetDish
  ∧ GetDish "1" = inl dish1
  ∧ Copy zeroDish dish1 = inl dish1
  ∧ ∃ s', R3.Get "1" zeroDish (mkState emptyServer ready3 []) = Done (dish1, None) s'
      ∧ added (mkState emptyServer ready3 []) s'
        = [RedisGet (jointKey ["dish"; "1"; "version"]);
           RedisGet (jointKey ["dish"; "1"]);
           LoaderCall "dish" "1";
           RedisSet (jointKey ["dish"; "1"]) (toJson dish1)]
      ∧ c (self s') !! jointKey ["dish"; "1"] = Some (toJson dish1)
      ∧ redis (world s') !! jointKey ["dish"; "1"] = Some (toJson dish1)
      ∧ version (self s') !! jointKey ["dish"; "1"] = Some 0.
Proof.
  do 8 (split; [reflexivity|]).
  exact (first_Get_loads_once (mkState emptyServer ready3 []) "1" zeroDish
           GetDish dish1 dish1 localhost eq_refl eq_refl eq_refl eq_refl
           eq_refl eq_refl eq_refl eq_refl).
Defined.

(** C9 at dish 3, which [GetDish] does not know. *)
Lemma Get_loader_error_witness :
  rdb ready3 = Some localhost
  ∧ outage emptyServer = []
  ∧ closed (updates ready3) = false
  ∧ (List.length (buf (updates ready3)) < capacity (updates ready3))%nat
  ∧ c ready3 !! jointKey ["dish"; "3"] = None
  ∧ redis emptyServer !! jointKey ["dish"; "3"] = None
  ∧ loaders ready3 !! "dish" = Some GetDish
  ∧ GetDish "3" = inr (Errorf "dish [3] not found")
  ∧ ∃ s', R3.Get "3" zeroDish (mkState emptyServer ready3 [])
          = Done (zeroDish, Some (Errorf "dish [3] not found")) s'
      ∧ c (self s') = c ready3
      ∧ redis (world s') = redis emptyServer
      ∧ version (self s') = version ready3
      ∧ added (mkState emptyServer ready3 []) s'
        = [RedisGet (jointKey ["dish"; "3"; "version"]);
           RedisGet (jointKey ["dish"; "3"]);
           LoaderCall "dish" "3"].
Proof.
  assert (List.length (buf (updates ready3)) < capacity (updates ready3))%nat
    as Hroom by (cbn; lia).
  do 3 (split; [reflexivity|]). split; [exact Hroom|].
  do 4 (split; [reflexivity|]).
  exact (Get_loader_error (mkState emptyServer ready3 []) "3" zeroDish GetDish
           (Errorf "dish [3] not found") localhost eq_refl eq_refl eq_refl
           Hroom eq_refl eq_refl eq_refl eq_refl).
Defined.

(** *** The remote hit that goes on to the loader *)

Section RemoteHit.
Context {Obj : Type} `{!Cacheable Obj, !Codec Obj}.
Implicit Types s : State Obj R3.CacheConfig string R3.versionInfo.

(** After a remote hit [get] stores the decoded value locally and then runs
    the statements that call the loader, as on a full miss. *)
Lemma get_remote_hit s key obj obj1 content cl :
  rdb (self s) = Some cl →
  c (self s) !! jointKey [Namespace obj; key] = None →
  (redisGet (jointKey [Namespace obj; key]) (world s)).1 = (content, None) →
  content ≠ "" →
  UnmarshalFromString content obj = inl obj1 →
  R3.get key obj s
  = (cSet (jointKey [Namespace obj; key]) (toJson obj1);;
     R3.loadThrough (jointKey [Namespace obj; key]) key obj1)
      (mkState (redisGet (jointKey [Namespace obj; key]) (world s)).2 (self s)
         (trace s ++ [RedisGet (jointKey [Namespace obj; key])])).
Proof.
  intros Hrdb Hlocal Hremote Hcontent Hdecode. unfold R3.get. mrun.
  rewrite Hlocal, Hrdb. msimpl.
  destruct (redisGet _ (world s)) as [[content' err] w]. msimpl.
  injection Hremote as -> ->.
  rewrite bool_decide_false by (intros [? _]; congruence).
  destruct (decide (content ≠ "")); [|contradiction].
  rewrite Hdecode. msimpl. now rewrite Hrdb.
Qed.

End RemoteHit.

(** C2. The remote tier holds dish 1 under [jointKey ["dish"; "1"]] and the
    local tier is empty. [Get] reads and decodes the remote value, and then
    calls the loader all the same, returns the loader's dish and overwrites
    the remote value with it. *)
Theorem Get_remote_hit_calls_loader :
  redis servedServer !! jointKey ["dish"; "1"] = Some (marshalDish staleDish)
  ∧ UnmarshalFromString (marshalDish staleDish) zeroDish = inl staleDish
  ∧ ∃ s1,
      R3.Get "1" zeroDish (mkState servedServer ready3 []) = Done (dish1, None) s1
      ∧ trace s1
        = [RedisGet (jointKey ["dish"; "1"; "version"]);
           RedisGet (jointKey ["dish"; "1"]);
           LoaderCall "dish" "1";
           RedisSet (jointKey ["dish"; "1"]) (marshalDish dish1)]
      ∧ dish1 ≠ staleDish
      ∧ redis (world s1) !! jointKey ["dish"; "1"] = Some (marshalDish dish1)
      ∧ c (self s1) !! jointKey ["dish"; "1"] = Some (marshalDish dish1).
Proof.
  split; [vm_compute; reflexivity|]. split; [vm_compute; reflexivity|].
  eexists. split; [vm_compute; reflexivity|].
  split; [vm_compute; reflexivity|]. split; [discriminate|].
  split; vm_compute; reflexivity.
Qed.

(** *** The second [Get] *)

Section SecondGet.
Context {Obj : Type} `{!Cacheable Obj, !Codec Obj}.
Implicit Types s : State Obj R3.CacheConfig string R3.versionInfo.

Lemma checkCacheUpdate_nil s namespace key :
  rdb (self s) = None → R3.checkCacheUpdate namespace key s = Panic s.
Proof. intros Hnil. unfold R3.checkCacheUpdate. mrun. now rewrite Hnil. Qed.

Lemma loadThrough_success s k key obj o s1 :
  R3.loadThrough k key obj s = Done (o, None) s1 →
  c (self s1) !! k = Some (toJson o) ∧ rdb (self s1) = rdb (self s).
Proof.
  unfold R3.loadThrough. mrun.
  destruct (loaders (self s) !! Namespace obj) as [loader|]; [|discriminate].
  msimpl. destruct (loader key) as [data|err]; [|discriminate].
  destruct (Copy obj data) as [obj'|err]; [|discriminate]. msimpl.
  destruct (rdb (self s)) as [cl|] eqn:Hrdb; [|discriminate]. msimpl.
  destruct (redisSet k (toJson obj') (world s)) as [e w]. msimpl.
  destruct (version (self s) !! k); msimpl; intros [= <- <-]; msimpl.
  all: rewrite lookup_insert_eq; split; auto.
Qed.

Lemma get_success_local s key obj o s1 :
  R3.get key obj s = Done (o, None) s1 →
  is_Some (c (self s1) !! jointKey [Namespace obj; key])
  ∧ rdb (self s1) = rdb (self s).
Proof.
  unfold R3.get. mrun.
  destruct (c (self s) !! jointKey [Namespace obj; key]) as [content|] eqn:Hc.
  - destruct (UnmarshalFromString content obj); intros [= <- <-];
      rewrite Hc; eauto.
  - destruct (rdb (self s)) as [cl|] eqn:Hrdb; [|discriminate]. msimpl.
    destruct (redisGet _ (world s)) as [[content err] w]. msimpl.
    destruct (bool_decide_reflect (err ≠ None ∧ err ≠ Some redisNil))
      as [[Herr _]|_]; [intros [= _ Heq _]; congruence|].
    destruct (decide (content ≠ "")).
    + destruct (UnmarshalFromString content obj) as [obj1|]; [|discriminate].
      intros Hload. apply loadThrough_success in Hload as [Hc1 Hrdb1].
      msimpl. rewrite Hc1, Hrdb1. eauto.
    + intros Hload. apply loadThrough_success in Hload as [Hc1 Hrdb1].
      msimpl. rewrite Hc1, Hrdb1. eauto.
Qed.

(** After a [Get] that returned no error the entity has a local entry. *)
Lemma Get_success_local s key obj o s1 :
  R3.Get key obj s = Done (o, None) s1 →
  is_Some (c (self s1) !! jointKey [Namespace obj; key])
  ∧ is_Some (rdb (self s1)).
Proof.
  rewrite Get_unfold. intros Hget.
  destruct (rdb (self s)) as [cl|] eqn:Hrdb;
    [|now rewrite checkCacheUpdate_nil in Hget].
  pose proof (checkCacheUpdate_frame s (Namespace obj) key cl Hrdb) as Hframe.
  destruct (R3.checkCacheUpdate (Namespace obj) key s) as [[] s0|s0|s0];
    try discriminate.
  msimpl. destruct Hframe as (_ & _ & _ & _ & _ & Hrdb0 & _).
  apply get_success_local in Hget as [Hc Hrdb1].
  split; [exact Hc|]. rewrite Hrdb1, Hrdb0, Hrdb. eauto.
Qed.

(** C6, as the code has it. After a [Get] that returned no error, a [Get] of
    the same entity sends one command to the remote tier, the read of the
    version key by the version check, and nothing else: no loader is called,
    the value key is neither read nor written. When it returns, its result is
    the local entry decoded and the two tiers and the shadow versions are as
    they were; it returns whenever the queue is open and has room. *)
Theorem second_Get_reads_version_only s key obj o1 s1 obj2 :
  R3.Get key obj s = Done (o1, None) s1 →
  Namespace obj2 = Namespace obj →
  ∃ content,
    c (self s1) !! jointKey [Namespace obj; key] = Some content
    ∧ added s1 (final (R3.Get key obj2 s1))
      = [RedisGet (jointKey [Namespace obj; key; "version"])]
    ∧ noLoaderCall (added s1 (final (R3.Get key obj2 s1)))
    ∧ (∀ r s2, R3.Get key obj2 s1 = Done r s2 →
         r = match UnmarshalFromString content obj2 with
             | inl obj' => (obj', None)
             | inr err => (obj2, Some err)
             end
         ∧ c (self s2) = c (self s1)
         ∧ redis (world s2) = redis (world s1)
         ∧ version (self s2) = version (self s1))
    ∧ (closed (updates (self s1)) = false →
       (List.length (buf (updates (self s1))) < capacity (updates (self s1)))%nat →
       ∃ r s2, R3.Get key obj2 s1 = Done r s2).
Proof.
  intros Hfirst Hns.
  apply Get_success_local in Hfirst as [[content Hc] [cl Hrdb]].
  exists content. split; [exact Hc|].
  pose proof (checkCacheUpdate_frame s1 (Namespace obj2) key cl Hrdb) as Hframe.
  pose proof (checkCacheUpdate_returns s1 (Namespace obj2) key cl Hrdb) as Hret.
  rewrite Get_unfold. unfold added, noLoaderCall.
  destruct (R3.checkCacheUpdate (Namespace obj2) key s1) as [[] s0|s0|s0];
    msimpl; destruct Hframe as (Htrace & Hworld & Hc0 & Hv0 & _);
    rewrite ?(get_local_hit s0 key obj2 content) by (now rewrite Hns, Hc0);
    msimpl; rewrite Htrace, drop_app_length, Hns;
    (split; [reflexivity|]);
    (split; [repeat constructor|]).
  - split.
    + intros r s2 [= <- <-].
      rewrite Hworld, redisGet_redis. auto.
    + eauto.
  - split; [discriminate|]. intros Hopen Hroom.
    destruct (Hret Hopen Hroom) as [? ?]. discriminate.
  - split; [discriminate|]. intros Hopen Hroom.
    destruct (Hret Hopen Hroom) as [? ?]. discriminate.
Qed.

End SecondGet.

(** C6 at the two [Get]s of the tests. *)
Lemma second_Get_reads_version_only_witness :
  R3.Get "1" zeroDish (mkState emptyServer ready3 []) = Done (dish1, None) afterGetA
  ∧ Namespace zeroDish = Namespace zeroDish
  ∧ ∃ content,
      c (self afterGetA) !! jointKey ["dish"; "1"] = Some content
      ∧ added afterGetA (final (R3.Get "1" zeroDish afterGetA))
        = [RedisGet (jointKey ["dish"; "1"; "version"])]
      ∧ noLoaderCall (added afterGetA (final (R3.Get "1" zeroDish afterGetA)))
      ∧ (∀ r s2, R3.Get "1" zeroDish afterGetA = Done r s2 →
           r = match UnmarshalFromString content zeroDish with
               | inl obj' => (obj', None)
               | inr err => (zeroDish, Some err)
               end
           ∧ c (self s2) = c (self afterGetA)
           ∧ redis (world s2) = redis (world afterGetA)
           ∧ version (self s2) = version (self afterGetA))
      ∧ (closed (updates (self afterGetA)) = false →
         (List.length (buf (updates (self afterGetA)))
          < capacity (updates (self afterGetA)))%nat →
         ∃ r s2, R3.Get "1" zeroDish afterGetA = Done r s2).
Proof.
  assert (R3.Get "1" zeroDish (mkState emptyServer ready3 [])
          = Done (dish1, None) afterGetA) as Hfirst by (vm_compute; reflexivity).
  split; [exact Hfirst|]. split; [reflexivity|].
  exact (second_Get_reads_version_only (mkState emptyServer ready3 []) "1"
           zeroDish dish1 afterGetA zeroDish Hfirst eq_refl).
Defined.

(** C6, as the specification has it, fails on the scenario of the tests: the
    second [Get] of dish 1 sends a [GET] for the version key. *)
Lemma second_Get_round_trip :
  ∃ s1 s2,
    R3.Get "1" zeroDish (mkState emptyServer ready3 []) = Done (dish1, None) s1
    ∧ R3.Get "1" zeroDish s1 = Done (dish1, None) s2
    ∧ added s1 s2 = [RedisGet "dish#$#1#$#version"]
    ∧ ¬ noRoundTrip (added s1 s2).
Proof.
  eexists _, _. split; [vm_compute; reflexivity|].
  split; [vm_compute; reflexivity|].
  split; [vm_compute; reflexivity|].
  intros Hnone.
  unfold noRoundTrip in Hnone.
  apply Forall_inv in Hnone.
  revert Hnone. vm_compute. discriminate.
Qed.

(** ** The invalidation worker *)

Section Worker.
Context {Obj : Type} `{!Cacheable Obj, !Codec Obj}.
Implicit Types s : State Obj R3.CacheConfig string R3.versionInfo.

(** C4. The worker takes the notification at the head of [updates] and reads
    the value of its entity from the remote tier, with one [GET] and no call
    of a loader. If the read returns a value, that value replaces the local
    entry and the notification's version number becomes the shadow version;
    if the read fails (the key is absent or the server is not reached) the
    notification is gone from the queue and the local tier and the shadow
    versions are as before. *)
Theorem worker_applies_notification s info rest cl :
  rdb (self s) = Some cl →
  buf (updates (self s)) = info :: rest →
  ∃ s', R3.workerReceive s = Done () s'
    ∧ added s s' = [RedisGet (R3.dataKey info)]
    ∧ buf (updates (self s')) = rest
    ∧ match (redisGet (R3.dataKey info) (world s)).1 with
      | (content, None) =>
          redis (world s) !! R3.dataKey info = Some content
          ∧ c (self s') = <[R3.dataKey info := content]> (c (self s))
          ∧ version (self s')
            = <[R3.dataKey info := R3.versionNo info]> (version (self s))
      | (_, Some _) =>
          c (self s') = c (self s) ∧ version (self s') = version (self s)
      end.
Proof.
  intros Hrdb Hbuf. unfold R3.workerReceive, R3.parseAndDo, added. mrun.
  rewrite Hbuf. msimpl. rewrite Hrdb. unfold redisGet, reach. msimpl.
  destruct (outage (world s)) as [|[] out]; msimpl;
    try destruct (redis (world s) !! R3.dataKey info) as [content|] eqn:Hval;
    msimpl; eexists; (split; [reflexivity|]); msimpl;
    rewrite drop_app_length; repeat split; reflexivity.
Qed.

End Worker.

(** C4 at a notification for dish 1, which the remote tier holds. *)
Lemma worker_applies_notification_witness :
  rdb (self notified) = Some localhost
  ∧ buf (updates (self notified)) = [R3.mkInfo "dish#$#1" 1]
  ∧ ∃ s', R3.workerReceive notified = Done () s'
      ∧ added notified s' = [RedisGet "dish#$#1"]
      ∧ buf (updates (self s')) = []
      ∧ match (redisGet "dish#$#1" (world notified)).1 with
        | (content, None) =>
            redis (world notified) !! "dish#$#1" = Some content
            ∧ c (self s') = <["dish#$#1" := content]> (c (self notified))
            ∧ version (self s') = <["dish#$#1" := 1]> (version (self notified))
        | (_, Some _) =>
            c (self s') = c (self notified)
            ∧ version (self s') = version (self notified)
        end.
Proof.
  split; [reflexivity|]. split; [reflexivity|].
  exact (worker_applies_notification notified (R3.mkInfo "dish#$#1" 1) []
           localhost eq_refl eq_refl).
Defined.

(** ** The refresh coordinator *)

Section Refresh.
Context {Obj : Type} `{!Cacheable Obj, !Codec Obj}.
Implicit Types s : State Obj R3.CacheConfig string R3.versionInfo.

(** C7. A [Refresh] of a namespace with a loader, on a server that is
    reached and with the lock of the entity free. If the loader returns a
    value: the value is written to both tiers, the counter under
    [jointKey ["version"; k]] goes from [n] to [n + 1], the shadow version is
    [n + 1], and the last command releases the lock. If the loader returns an
    error: the goroutine ends with the lock still held and with nothing else
    written, neither tier, nor the counter, nor the shadow versions. *)
Theorem Refresh_writes_or_aborts s fuel namespace key (loader : DataLoader Obj)
    cl cl' n :
  let k := jointKey [namespace; key] in
  let token := "token-" +:+ pretty (nonce (world s)) in
  rdb (self s) = Some cl →
  locker (self s) = Some cl' →
  outage (world s) = [] →
  loaders (self s) !! namespace = Some loader →
  redis (world s) !! jointKey ["lock"; k] = None →
  counterOf (world s) k = Some n →
  n < 2 ^ 63 - 1 →
  (∀ data, loader key = inl data →
     ∃ s', R3.Refresh (S fuel) namespace key s = Done () s'
       ∧ added s s'
         = [LockObtain (jointKey ["lock"; k]); LoaderCall namespace key;
            RedisSet k (toJson data); RedisIncr (jointKey ["version"; k]);
            LockRelease (jointKey ["lock"; k])]
       ∧ c (self s') = <[k := toJson data]> (c (self s))
       ∧ redis (world s')
         = <[jointKey ["version"; k] := pretty (n + 1)]>
             (<[k := toJson data]> (redis (world s)))
       ∧ redis (world s') !! k = Some (toJson data)
       ∧ counterOf (world s') k = Some (n + 1)
       ∧ version (self s') = <[k := n + 1]> (version (self s))
       ∧ redis (world s') !! jointKey ["lock"; k] = None)
  ∧ (∀ err, loader key = inr err →
     ∃ s', R3.Refresh (S fuel) namespace key s = Done () s'
       ∧ added s s'
         = [LockObtain (jointKey ["lock"; k]); LoaderCall namespace key]
       ∧ c (self s') = c (self s)
       ∧ version (self s') = version (self s)
       ∧ redis (world s') = <[jointKey ["lock"; k] := token]> (redis (world s))
       ∧ redis (world s') !! jointKey ["lock"; k] = Some token).
Proof.
  intros k token Hrdb Hlocker Hup Hloader Hfree Hcount Hmax.
  assert (jointKey ["lock"; k] ≠ k) as Hlk by apply lockKey_ne_value.
  assert (jointKey ["version"; k] ≠ k) as Hvk by apply versionKey_ne_value.
  assert (jointKey ["lock"; k] ≠ jointKey ["version"; k]) as Hlv
    by apply lockKey_ne_versionKey.
  split.
  - intros data Hload. unfold R3.Refresh, R3.refreshTask, added. mrun.
    fold k. rewrite Hloader. msimpl. rewrite Hlocker. msimpl.
    rewrite (lockObtain_up _ _ Hup Hfree). fold token. mgo.
    rewrite redisSet_up by reflexivity. msimpl.
    rewrite (redisIncr_up k _ n); msimpl; [|reflexivity| |assumption].
    2:{ unfold counterOf in *. msimpl.
        now rewrite !lookup_insert_ne by done. }
    rewrite lockRelease_up; msimpl; [|reflexivity|].
    2:{ now rewrite !lookup_insert_ne, lookup_insert_eq by done. }
    eexists. split; [reflexivity|]. msimpl.
    rewrite <- !app_assoc, drop_app_length.
    rewrite !delete_insert_ne, delete_insert_eq, (delete_id _ _ Hfree)
      by done.
    pose proof (counterOf_range _ _ _ Hcount) as Hrange.
    unfold counterOf. msimpl.
    rewrite lookup_insert_eq, string2ll_pretty by lia.
    rewrite !(lookup_insert_ne _ (jointKey ["version"; k])) by done.
    rewrite lookup_insert_eq.
    repeat split; rewrite ?lookup_insert_ne by done; done.
  - intros err Hload. unfold R3.Refresh, R3.refreshTask, added. mrun.
    fold k. rewrite Hloader. msimpl. rewrite Hlocker. msimpl.
    rewrite (lockObtain_up _ _ Hup Hfree). fold token. mgo.
    eexists. split; [reflexivity|]. msimpl.
    rewrite <- !app_assoc, drop_app_length, lookup_insert_eq. auto 10.
Qed.

End Refresh.

(** C7 at dish 1, which [GetDish] returns, and at dish 3, which it does not
    know. *)
Lemma Refresh_writes_or_aborts_witness :
  rdb ready3 = Some localhost
  ∧ locker ready3 = Some localhost
  ∧ outage emptyServer = []
  ∧ loaders ready3 !! "dish" = Some GetDish
  ∧ redis emptyServer !! jointKey ["lock"; jointKey ["dish"; "1"]] = None
  ∧ counterOf emptyServer (jointKey ["dish"; "1"]) = Some 0
  ∧ 0 < 2 ^ 63 - 1
  ∧ GetDish "1" = inl dish1
  ∧ (∃ s', R3.Refresh 1 "dish" "1" (mkState emptyServer ready3 []) = Done () s'
      ∧ added (mkState emptyServer ready3 []) s'
        = [LockObtain (jointKey ["lock"; jointKey ["dish"; "1"]]);
           LoaderCall "dish" "1";
           RedisSet (jointKey ["dish"; "1"]) (toJson dish1);
           RedisIncr (jointKey ["version"; jointKey ["dish"; "1"]]);
           LockRelease (jointKey ["lock"; jointKey ["dish"; "1"]])]
      ∧ c (self s') = <[jointKey ["dish"; "1"] := toJson dish1]> (c ready3)
      ∧ redis (world s')
        = <[jointKey ["version"; jointKey ["dish"; "1"]] := pretty (0 + 1)]>
            (<[jointKey ["dish"; "1"] := toJson dish1]> (redis emptyServer))
      ∧ redis (world s') !! jointKey ["dish"; "1"] = Some (toJson dish1)
      ∧ counterOf (world s') (jointKey ["dish"; "1"]) = Some (0 + 1)
      ∧ version (self s') = <[jointKey ["dish"; "1"] := 0 + 1]> (version ready3)
      ∧ redis (world s') !! jointKey ["lock"; jointKey ["dish"; "1"]] = None)
  ∧ GetDish "3" = inr (Errorf "dish [3] not found")
  ∧ (∃ s', R3.Refresh 1 "dish" "3" (mkState emptyServer ready3 []) = Done () s'
      ∧ added (mkState emptyServer ready3 []) s'
        = [LockObtain (jointKey ["lock"; jointKey ["dish"; "3"]]);
           LoaderCall "dish" "3"]
      ∧ c (self s') = c ready3
      ∧ version (self s') = version ready3
      ∧ redis (world s')
        = <[jointKey ["lock"; jointKey ["dish"; "3"]] := "token-0"]>
            (redis emptyServer)
      ∧ redis (world s') !! jointKey ["lock"; jointKey ["dish"; "3"]]
        = Some "token-0").
Proof.
  assert (0 < 2 ^ 63 - 1) as Hmax by lia.
  do 6 (split; [reflexivity|]). split; [exact Hmax|]. split; [reflexivity|].
  split; [|split; [reflexivity|]].
  - exact (proj1 (Refresh_writes_or_aborts (mkState emptyServer ready3 []) 0
                    "dish" "1" GetDish localhost localhost 0 eq_refl eq_refl
                    eq_refl eq_refl eq_refl eq_refl Hmax) dish1 eq_refl).
  - exact (proj2 (Refresh_writes_or_aborts (mkState emptyServer ready3 []) 0
                    "dish" "3" GetDish localhost localhost 0 eq_refl eq_refl
                    eq_refl eq_refl eq_refl eq_refl Hmax)
             (Errorf "dish [3] not found") eq_refl).
Defined.

(** *** The two version keys *)

(** C1. Instance B loads dish 1 (shadow version 0); instance A then runs
    [Refresh("dish", "1")] on the same server. The increment of A lands
    under [jointKey ["version"; "dish"; "1"]]; the key that the version check
    of [Get] reads, [jointKey ["dish"; "1"; "version"]], stays unset. The
    next [Get] of B asks for that key, finds nothing, queues no notification
    and keeps its shadow version 0 against a counter of 1. *)
Theorem Refresh_bumps_unchecked_key :
  ∃ sB1 sA1 sB2,
    R3.Get "1" zeroDish (mkState emptyServer ready3 []) = Done (dish1, None) sB1
    ∧ version (self sB1) !! jointKey ["dish"; "1"] = Some 0
    ∧ R3.Refresh 1 "dish" "1" (mkState (world sB1) ready3 []) = Done () sA1
    ∧ trace sA1
      = [LockObtain "lock#$#dish#$#1"; LoaderCall "dish" "1";
         RedisSet "dish#$#1" (marshalDish dish1);
         RedisIncr "version#$#dish#$#1"; LockRelease "lock#$#dish#$#1"]
    ∧ redis (world sA1) !! jointKey ["version"; jointKey ["dish"; "1"]] = Some "1"
    ∧ redis (world sA1) !! jointKey ["dish"; "1"; "version"] = None
    ∧ R3.Get "1" zeroDish (mkState (world sA1) (self sB1) [])
      = Done (dish1, None) sB2
    ∧ trace sB2 = [RedisGet "dish#$#1#$#version"]
    ∧ buf (updates (self sB2)) = []
    ∧ version (self sB2) !! jointKey ["dish"; "1"] = Some 0
    ∧ counterOf (world sB2) (jointKey ["dish"; "1"]) = Some 1.
Proof.
  eexists _, _, _.
  do 10 (split; [vm_compute; reflexivity|]). vm_compute; reflexivity.
Qed.

(** *** The key that [Refresh] leaves alone *)

Section UncheckedKey.
Context {Obj : Type} `{!Cacheable Obj, !Codec Obj}.
Implicit Types s : State Obj R3.CacheConfig string R3.versionInfo.

(** For every entity whose two version keys differ, a [Refresh] that runs to
    its end increments the one and leaves the other, the one that the version
    check reads, as it was. *)
Lemma Refresh_leaves_checked_key s fuel namespace key (loader : DataLoader Obj)
    data cl cl' n :
  rdb (self s) = Some cl →
  locker (self s) = Some cl' →
  outage (world s) = [] →
  loaders (self s) !! namespace = Some loader →
  redis (world s) !! jointKey ["lock"; jointKey [namespace; key]] = None →
  counterOf (world s) (jointKey [namespace; key]) = Some n →
  n < 2 ^ 63 - 1 →
  loader key = inl data →
  jointKey [namespace; key; "version"]
  ≠ jointKey ["version"; jointKey [namespace; key]] →
  ∃ s', R3.Refresh (S fuel) namespace key s = Done () s'
    ∧ redis (world s') !! jointKey ["version"; jointKey [namespace; key]]
      = Some (pretty (n + 1))
    ∧ redis (world s') !! jointKey [namespace; key; "version"]
      = redis (world s) !! jointKey [namespace; key; "version"].
Proof.
  intros Hrdb Hlocker Hup Hloader Hfree Hcount Hmax Hload Hkeys.
  set (k := jointKey [namespace; key]) in *.
  assert (jointKey ["lock"; k] ≠ k) as Hlk by apply lockKey_ne_value.
  assert (jointKey ["version"; k] ≠ k) as Hvk by apply versionKey_ne_value.
  assert (jointKey ["lock"; k] ≠ jointKey ["version"; k]) as Hlv
    by apply lockKey_ne_versionKey.
  assert (jointKey [namespace; key; "version"] ≠ k) as Hck
    by apply checkedKey_ne_value.
  assert (jointKey [namespace; key; "version"] ≠ jointKey ["lock"; k]) as Hcl
    by apply checkedKey_ne_lockKey.
  unfold R3.Refresh, R3.refreshTask. mrun.
  fold k. rewrite Hloader. msimpl. rewrite Hlocker. msimpl.
  rewrite (lockObtain_up _ _ Hup Hfree). mgo.
  rewrite redisSet_up by reflexivity. msimpl.
  rewrite (redisIncr_up k _ n); msimpl; [|reflexivity| |assumption].
  2:{ unfold counterOf in *. msimpl. now rewrite !lookup_insert_ne by done. }
  rewrite lockRelease_up; msimpl; [|reflexivity|].
  2:{ now rewrite !lookup_insert_ne, lookup_insert_eq by done. }
  eexists. split; [reflexivity|]. msimpl.
  rewrite !delete_insert_ne, delete_insert_eq, (delete_id _ _ Hfree) by done.
  rewrite lookup_insert_eq. split; [reflexivity|].
  now rewrite !lookup_insert_ne by done.
Qed.

End UncheckedKey.

(** ** Shadow versions and the counter *)

Lemma triple_ret {S A} (P : S → Prop) (a : A) (Q : A → S → Prop) E :
  (∀ s, P s → Q a s) → triple P (mret a) Q E.
Proof. intros HQ s HP. now apply HQ. Qed.

Lemma triple_bind {S A B} (P : S → Prop) (m : M S A) (f : A → M S B)
    (Q : A → S → Prop) (R : B → S → Prop) E :
  triple P m Q E → (∀ a, triple (Q a) (f a) R E) → triple P (m ≫= f) R E.
Proof.
  intros Hm Hf s HP. specialize (Hm s HP). unfold mbind, M_bind.
  destruct (m s) as [a s'|s'|s']; [now apply Hf|assumption..].
Qed.

Lemma triple_weaken {S A} (P P' : S → Prop) (m : M S A)
    (Q Q' : A → S → Prop) E :
  triple P' m Q' E → (∀ s, P s → P' s) → (∀ a s, Q' a s → Q a s) →
  triple P m Q E.
Proof.
  intros Hm HP HQ s Hs. specialize (Hm s (HP s Hs)).
  destruct (m s); auto.
Qed.

Lemma triple_assume {S A} (P : S → Prop) (φ : Prop) (m : M S A)
    (Q : A → S → Prop) E :
  (φ → triple P m Q E) → triple (λ s, P s ∧ φ) m Q E.
Proof. intros Hm s [HP Hφ]. now apply Hm. Qed.

Lemma counterOf_redisGet key w k : counterOf (redisGet key w).2 k = counterOf w k.
Proof. unfold counterOf. now rewrite redisGet_redis. Qed.

Lemma counterOf_redisSet key value w k :
  key ≠ jointKey ["version"; k] →
  counterOf (redisSet key value w).2 k = counterOf w k.
Proof.
  intros Hne. unfold counterOf, redisSet, reach.
  destruct (outage w) as [|[] out]; cbn; rewrite ?lookup_insert_ne by done;
    reflexivity.
Qed.

Lemma counterOf_lockObtain key w k :
  key ≠ jointKey ["version"; k] →
  counterOf (lockObtain key w).2 k = counterOf w k.
Proof.
  intros Hne. unfold counterOf, lockObtain, reach. cbn.
  destruct (outage w) as [|[] out]; cbn; try reflexivity;
    destruct (redis w !! key); cbn; rewrite ?lookup_insert_ne by done;
    reflexivity.
Qed.

Lemma lockObtain_key key w : lockKey (lockObtain key w).1.1 = key.
Proof.
  unfold lockObtain, reach. cbn.
  destruct (outage w) as [|[] out]; cbn; try reflexivity;
    destruct (redis w !! key); reflexivity.
Qed.

Lemma counterOf_lockRelease l w k :
  lockKey l ≠ jointKey ["version"; k] →
  counterOf (lockRelease l w).2 k = counterOf w k.
Proof.
  intros Hne. unfold counterOf, lockRelease, reach.
  destruct (outage w) as [|[] out]; cbn; try reflexivity;
    destruct (decide _); cbn; rewrite ?lookup_delete_ne by done; reflexivity.
Qed.

Lemma counterOf_redisIncr_other key w k :
  key ≠ jointKey ["version"; k] →
  counterOf (redisIncr key w).2 k = counterOf w k.
Proof.
  intros Hne. unfold counterOf, redisIncr, reach.
  destruct (outage w) as [|[] out]; cbn; try reflexivity;
    destruct (match redis w !! key with Some v => string2ll v | None => Some 0 end)
      as [n|]; try reflexivity;
    destruct (n <? 2 ^ 63 - 1); cbn; rewrite ?lookup_insert_ne by done;
    reflexivity.
Qed.

(** [INCR] on the counter: it goes up by one, or the command fails and the
    counter is as before. *)
Lemma counterOf_redisIncr_same w k n :
  counterOf w k = Some n →
  match redisIncr (jointKey ["version"; k]) w with
  | ((recNo, None), w') => recNo = n + 1 ∧ counterOf w' k = Some (n + 1)
  | ((_, Some _), w') => counterOf w' k = Some n
  end.
Proof.
  intros Hcount. pose proof (counterOf_range _ _ _ Hcount) as Hrange.
  unfold redisIncr, reach.
  destruct (outage w) as [|[] out]; msimpl; try exact Hcount;
    unfold counterOf in Hcount; rewrite Hcount;
    destruct (Z.ltb_spec n (2 ^ 63 - 1)); msimpl; unfold counterOf; msimpl;
    try exact Hcount;
    (split; [reflexivity|]);
    rewrite lookup_insert_eq; apply string2ll_pretty; lia.
Qed.

Create HintDb safe.

Section ShadowInvariant.
Context {Obj : Type} `{!Cacheable Obj, !Codec Obj}.
Variables (k0 : string) (ver : gmap string Z).
Implicit Types s : State Obj R3.CacheConfig string R3.versionInfo.

Local Abbreviation Inv :=
  (shadowInv (Obj := Obj) (Cfg := R3.CacheConfig) (Item := string)
     (Note := R3.versionInfo) k0 ver).
Local Abbreviation safe m := (triple Inv m (λ _, Inv) Inv).

(** A step that moves neither the counter of [k0] nor the shadow version of
    [k0] keeps the invariant. *)
Lemma shadowInv_frame s s' :
  counterOf (world s') k0 = counterOf (world s) k0 →
  version (self s') !! k0 = version (self s) !! k0 →
  Inv s → Inv s'.
Proof.
  intros Hcount Hshadow [(n & Hn & Hpos & Hle) (n' & Hn' & Hpos' & Hle')].
  split.
  - exists n. rewrite Hcount, Hshadow. auto.
  - exists n'. rewrite Hcount. auto.
Qed.

Lemma safe_frame {A} (m : M _ A) :
  (∀ s, counterOf (world (final (m s))) k0 = counterOf (world s) k0
        ∧ version (self (final (m s))) !! k0 = version (self s) !! k0) →
  safe m.
Proof.
  intros Hframe s HI. destruct (Hframe s) as [Hcount Hshadow].
  destruct (m s); msimpl; eapply shadowInv_frame; eauto.
Qed.

Lemma safe_getSelf : safe (getSelf (Note := R3.versionInfo)).
Proof. apply safe_frame. intros s. now split. Qed.

Lemma safe_cGet k : safe (cGet (Note := R3.versionInfo) k).
Proof. apply safe_frame. intros s. now split. Qed.

Lemma safe_cSet k x : safe (cSet (Note := R3.versionInfo) k x).
Proof. apply safe_frame. intros s. now split. Qed.

Lemma safe_callLoader namespace (loader : DataLoader Obj) key :
  safe (callLoader (Note := R3.versionInfo) (Item := string)
          (Cfg := R3.CacheConfig) namespace loader key).
Proof. apply safe_frame. intros s. now split. Qed.

Lemma safe_send x : safe (send (Obj := Obj) (Cfg := R3.CacheConfig)
                            (Item := string) x).
Proof.
  apply safe_frame. intros s. unfold send. mrun.
  destruct (closed (updates (self s))); [now split|].
  destruct (decide _); now split.
Qed.

Lemma safe_rdbGet key :
  safe (rdbGet (Obj := Obj) (Cfg := R3.CacheConfig) (Item := string)
          (Note := R3.versionInfo) key).
Proof.
  apply safe_frame. intros s. unfold rdbGet. mrun.
  destruct (rdb (self s)) as [cl|]; [|now split]. msimpl.
  pose proof (counterOf_redisGet key (world s) k0) as Hcount.
  destruct (redisGet key (world s)) as [res w]. now split.
Qed.

Lemma safe_rdbSet key value :
  key ≠ jointKey ["version"; k0] →
  safe (rdbSet (Obj := Obj) (Cfg := R3.CacheConfig) (Item := string)
          (Note := R3.versionInfo) key value).
Proof.
  intros Hne. apply safe_frame. intros s. unfold rdbSet. mrun.
  destruct (rdb (self s)) as [cl|]; [|now split]. msimpl.
  pose proof (counterOf_redisSet key value (world s) k0 Hne) as Hcount.
  destruct (redisSet key value (world s)) as [res w]. now split.
Qed.

Lemma safe_lockerObtain key :
  key ≠ jointKey ["version"; k0] →
  triple Inv (lockerObtain (Obj := Obj) (Cfg := R3.CacheConfig)
                (Item := string) (Note := R3.versionInfo) key)
    (λ r s, Inv s ∧ lockKey r.1 = key) Inv.
Proof.
  intros Hne s HI. unfold lockerObtain. mrun.
  destruct (locker (self s)) as [cl|]; [|exact HI]. msimpl.
  pose proof (counterOf_lockObtain key (world s) k0 Hne) as Hcount.
  pose proof (lockObtain_key key (world s)) as Hkey.
  destruct (lockObtain key (world s)) as [res w]. msimpl. split; [|exact Hkey].
  eapply shadowInv_frame; [| |exact HI]; msimpl; auto.
Qed.

Lemma safe_release l :
  lockKey l ≠ jointKey ["version"; k0] →
  safe (release (Obj := Obj) (Cfg := R3.CacheConfig) (Item := string)
          (Note := R3.versionInfo) l).
Proof.
  intros Hne. apply safe_frame. intros s. unfold release. mrun.
  pose proof (counterOf_lockRelease l (world s) k0 Hne) as Hcount.
  destruct (lockRelease l (world s)) as [res w]. now split.
Qed.

(** The seed of [get]: 0 is below a counter that is not negative. *)
Lemma safe_seed k :
  safe (setVersion (Obj := Obj) (Cfg := R3.CacheConfig) (Item := string)
          (Note := R3.versionInfo) k 0).
Proof.
  intros s [(n & Hn & Hpos & Hle) Hother]. unfold setVersion. mrun.
  split; [|exact Hother]. exists n. msimpl. repeat split; try assumption.
  intros v. destruct (decide (k = k0)) as [->|Hne].
  - rewrite lookup_insert_eq. intros [= <-]. exact Hpos.
  - rewrite lookup_insert_ne by done. apply Hle.
Qed.

(** The increment of [Refresh] with the update of the shadow version that
    follows it. *)
Lemma safe_rdbIncr k :
  triple Inv (rdbIncr (Obj := Obj) (Cfg := R3.CacheConfig) (Item := string)
                (Note := R3.versionInfo) (jointKey ["version"; k]))
    (λ r s, Inv s ∧ (r.2 = None → k = k0 → counterOf (world s) k0 = Some r.1))
    Inv.
Proof.
  intros s HI. unfold rdbIncr. mrun.
  destruct (rdb (self s)) as [cl|]; [|exact HI]. msimpl.
  destruct (decide (k = k0)) as [->|Hne].
  - destruct HI as [(n & Hn & Hpos & Hle) (n' & Hn' & Hpos' & Hle')].
    pose proof (counterOf_redisIncr_same (world s) k0 n Hn) as Hincr.
    destruct (redisIncr _ (world s)) as [[recNo [err|]] w]; msimpl.
    + assert (n' = n) as -> by congruence.
      split; [|discriminate].
      split; exists n; msimpl; auto.
    + destruct Hincr as [-> Hcount]. split; [|auto].
      assert (n' = n) as -> by congruence.
      split; exists (n + 1); msimpl; (split; [exact Hcount|]);
        (split; [lia|]); intros v Hv; [apply Hle in Hv|apply Hle' in Hv]; lia.
  - assert (jointKey ["version"; k] ≠ jointKey ["version"; k0]) as Hvk
      by (intros Heq; apply versionKey_inj in Heq; contradiction).
    pose proof (counterOf_redisIncr_other _ (world s) k0 Hvk) as Hcount.
    destruct (redisIncr _ (world s)) as [[recNo err] w]; msimpl.
    split; [|intros _ ?; contradiction].
    eapply shadowInv_frame; [| |exact HI]; msimpl; auto.
Qed.

Lemma safe_setVersion_counted k recNo :
  triple (λ s, Inv s ∧ (k = k0 → counterOf (world s) k0 = Some recNo))
    (setVersion (Obj := Obj) (Cfg := R3.CacheConfig) (Item := string)
       (Note := R3.versionInfo) k recNo)
    (λ _, Inv) Inv.
Proof.
  intros s [[(n & Hn & Hpos & Hle) Hother] Hcount]. unfold setVersion. mrun.
  split; [|exact Hother]. exists n. msimpl. repeat split; try assumption.
  intros v. destruct (decide (k = k0)) as [->|Hne].
  - rewrite lookup_insert_eq. intros [= <-].
    specialize (Hcount eq_refl). assert (n = recNo) by congruence. lia.
  - rewrite lookup_insert_ne by done. apply Hle.
Qed.

#[local] Hint Resolve safe_getSelf safe_cGet safe_cSet safe_callLoader safe_send
  safe_rdbGet safe_rdbSet safe_release safe_seed : safe.

Ltac safe_step :=
  first
    [ apply triple_ret; intros; assumption
    | solve [auto with safe]
    | eapply triple_bind; [solve [auto with safe]|intros ?] ].

Lemma safe_checkCacheUpdate namespace key :
  safe (R3.checkCacheUpdate namespace key).
Proof.
  unfold R3.checkCacheUpdate.
  eapply triple_bind; [apply safe_rdbGet|intros [content [err|]]];
    [safe_step|].
  destruct (ParseInt content) as [latest|]; [|safe_step].
  eapply triple_bind; [apply safe_getSelf|intros p].
  destruct (version p !! _) as [current|]; [|safe_step].
  destruct (decide (latest ≠ current)); safe_step.
Qed.

Lemma safe_loadThrough k key obj :
  k ≠ jointKey ["version"; k0] → safe (R3.loadThrough k key obj).
Proof.
  intros Hne. unfold R3.loadThrough.
  eapply triple_bind; [apply safe_getSelf|intros p].
  destruct (loaders p !! Namespace obj) as [loader|]; [|safe_step].
  eapply triple_bind; [apply safe_callLoader|intros [data|err]]; [|safe_step].
  destruct (Copy obj data) as [obj'|err]; [|safe_step].
  eapply triple_bind; [now apply safe_rdbSet|intros ?].
  eapply triple_bind; [apply safe_cSet|intros ?].
  eapply triple_bind; [apply safe_getSelf|intros p'].
  eapply triple_bind with (Q := λ _, Inv); [|intros ?; safe_step].
  destruct (version p' !! k); safe_step.
Qed.

Lemma safe_get key obj :
  jointKey [Namespace obj; key] ≠ jointKey ["version"; k0] →
  safe (R3.get key obj).
Proof.
  intros Hne. unfold R3.get.
  eapply triple_bind; [apply safe_cGet|intros [content|]].
  - destruct (UnmarshalFromString content obj); safe_step.
  - eapply triple_bind; [apply safe_rdbGet|intros [content err]].
    destruct (bool_decide _); [safe_step|].
    destruct (decide (content ≠ "")); [|now apply safe_loadThrough].
    destruct (UnmarshalFromString content obj) as [obj1|]; [|safe_step].
    eapply triple_bind; [apply safe_cSet|intros ?].
    now apply safe_loadThrough.
Qed.

Lemma safe_Get key obj :
  jointKey [Namespace obj; key] ≠ jointKey ["version"; k0] →
  safe (R3.Get key obj).
Proof.
  intros Hne. unfold R3.Get.
  eapply triple_bind; [apply safe_checkCacheUpdate|intros ?].
  now apply safe_get.
Qed.

Lemma safe_refreshTask fuel (loader : DataLoader Obj) namespace key :
  jointKey [namespace; key] ≠ jointKey ["version"; k0] →
  safe (R3.refreshTask fuel loader namespace key).
Proof.
  intros Hne. induction fuel as [|fuel IH]; cbn [R3.refreshTask].
  - intros s HI. exact HI.
  - eapply triple_bind;
      [apply safe_lockerObtain, lockKey_ne_versionKey|intros [lock err]].
    apply triple_assume. cbn [fst]. intros Hkey.
    destruct err as [err|]; [exact IH|].
    eapply triple_bind; [apply safe_callLoader|intros [data|err]];
      [|safe_step].
    eapply triple_bind; [apply safe_cSet|intros ?].
    eapply triple_bind; [now apply safe_rdbSet|intros ?].
    eapply triple_bind; [apply safe_rdbIncr|intros [recNo err]].
    eapply triple_bind with (Q := λ _, Inv).
    { destruct err as [err|].
      - apply triple_ret. now intros s [HI _].
      - eapply triple_weaken; [apply (safe_setVersion_counted _ recNo)| |auto].
        intros s [HI Hcount]. split; [exact HI|]. now apply Hcount. }
    intros ?.
    eapply triple_bind with (Q := λ _, Inv); [|intros ?; safe_step].
    apply safe_release. rewrite Hkey. apply lockKey_ne_versionKey.
Qed.

Lemma safe_Refresh fuel namespace key :
  jointKey [namespace; key] ≠ jointKey ["version"; k0] →
  safe (R3.Refresh fuel namespace key).
Proof.
  intros Hne. unfold R3.Refresh.
  eapply triple_bind; [apply safe_getSelf|intros p].
  destruct (loaders p !! namespace) as [loader|]; [|safe_step].
  now apply safe_refreshTask.
Qed.

(** [Get] and [Refresh] keep the invariant, however they end. *)
Lemma perform_keeps_shadowInv cl s :
  valueKey cl ≠ jointKey ["version"; k0] →
  shadowInv k0 ver s → shadowInv k0 ver (perform cl s).
Proof.
  intros Hne HI. destruct cl as [key obj|fuel namespace key]; cbn [perform].
  - pose proof (safe_Get key obj Hne s HI) as Hsafe.
    now destruct (R3.Get key obj s).
  - pose proof (safe_Refresh fuel namespace key Hne s HI) as Hsafe.
    now destruct (R3.Refresh fuel namespace key s).
Qed.

End ShadowInvariant.

Section SystemInvariant.
Context {Obj : Type} `{!Cacheable Obj, !Codec Obj}.
Implicit Types sys : System (Obj := Obj).

Lemma act_keeps_systemBelow k0 sys step :
  valueKey step.2 ≠ jointKey ["version"; k0] →
  systemBelow k0 sys → systemBelow k0 (act sys step).
Proof.
  intros Hne [Hcount Hall]. unfold act.
  destruct (sys.2 !! step.1) as [p|] eqn:Hp; [|now split].
  assert (shadowBelow sys.1 (version p) k0) as Hp0
    by (eapply Hall, list_elem_of_lookup_2, Hp).
  assert (∀ ver, shadowBelow sys.1 ver k0 →
            shadowInv k0 ver (perform step.2 (mkState sys.1 p []))) as Hkeep.
  { intros ver Hver. apply perform_keeps_shadowInv; [exact Hne|].
    split; [exact Hp0|exact Hver]. }
  split; cbn [fst snd].
  - apply (Hkeep ∅ Hcount).
  - intros q [j Hq]%list_elem_of_lookup_1.
    apply list_lookup_insert_Some in Hq as [(_ & <- & _)|[_ Hq]].
    + apply (Hkeep ∅ Hcount).
    + apply (Hkeep (version q)). eapply Hall, list_elem_of_lookup_2, Hq.
Qed.

(** C8, as the code has it. Let the counter of an entity be the integer
    under the key that [Refresh] increments, and let it be non-negative.
    Through any sequence of [Get]s and [Refresh]es, by any of the instances
    that share the server and about any entities whose value key is not that
    counter's key, the shadow version that each instance has of the entity
    stays at most the counter, also where a call panics or blocks. *)
Theorem shadow_stays_below k0 sched sys :
  systemBelow k0 sys →
  Forall (λ step, valueKey step.2 ≠ jointKey ["version"; k0]) sched →
  systemBelow k0 (runAll sched sys).
Proof.
  intros Hsys Hsched. revert sys Hsys.
  induction Hsched as [|step sched Hne _ IH]; intros sys Hsys; [exact Hsys|].
  cbn [runAll foldl]. apply IH. now apply act_keeps_systemBelow.
Qed.

End SystemInvariant.

(** C8 at two instances on an empty server: the first loads and refreshes
    dish 1, then the second refreshes it. *)
Lemma shadow_stays_below_witness :
  systemBelow (jointKey ["dish"; "1"]) (emptyServer, [ready3; ready3])
  ∧ Forall (λ step, valueKey step.2
                    ≠ jointKey ["version"; jointKey ["dish"; "1"]])
      [(0%nat, CallGet "1" zeroDish); (0%nat, CallRefresh 1 "dish" "1");
       (1%nat, CallRefresh 1 "dish" "1")]
  ∧ systemBelow (jointKey ["dish"; "1"])
      (runAll [(0%nat, CallGet "1" zeroDish); (0%nat, CallRefresh 1 "dish" "1");
               (1%nat, CallRefresh 1 "dish" "1")]
         (emptyServer, [ready3; ready3])).
Proof.
  assert (shadowBelow emptyServer ∅ (jointKey ["dish"; "1"])) as Hempty.
  { exists 0. split; [reflexivity|]. split; [lia|].
    intros v Hv. rewrite lookup_empty in Hv. discriminate. }
  assert (systemBelow (jointKey ["dish"; "1"]) (emptyServer, [ready3; ready3]))
    as Hsys.
  { split; [exact Hempty|]. intros p Hp.
    assert (version p = ∅) as ->; [|exact Hempty].
    apply list_elem_of_In in Hp. cbn in Hp.
    destruct Hp as [<-|[<-|[]]]; reflexivity. }
  assert (Forall (λ step, valueKey step.2
                          ≠ jointKey ["version"; jointKey ["dish"; "1"]])
            [(0%nat, CallGet "1" zeroDish); (0%nat, CallRefresh 1 "dish" "1");
             (1%nat, CallRefresh 1 "dish" "1")]) as Hsched
      by (repeat constructor; vm_compute; discriminate).
  split; [exact Hsys|]. split; [exact Hsched|].
  exact (shadow_stays_below (jointKey ["dish"; "1"]) _ _ Hsys Hsched).
Defined.

(** C8, as the specification has it, fails in the system of two instances
    A and B after A loaded and refreshed dish 1 and B refreshed it: the
    shadow version of A is 1 and its queue is empty, while the counter that
    [Refresh] increments is 2 and the counter that the version check reads is
    unset. *)
Lemma shadow_differs_nothing_in_flight :
  R3.Get "1" zeroDish (mkState emptyServer ready3 []) = Done (dish1, None) afterGetA
  ∧ R3.Refresh 1 "dish" "1" afterGetA = Done () afterRefreshA
  ∧ R3.Refresh 1 "dish" "1" (mkState (world afterRefreshA) ready3 [])
    = Done () afterRefreshB
  ∧ runAll [(0%nat, CallGet "1" zeroDish); (0%nat, CallRefresh 1 "dish" "1");
            (1%nat, CallRefresh 1 "dish" "1")] (emptyServer, [ready3; ready3])
    = (world afterRefreshB, [self afterRefreshA; self afterRefreshB])
  ∧ version (self afterRefreshA) !! jointKey ["dish"; "1"] = Some 1
  ∧ buf (updates (self afterRefreshA)) = []
  ∧ counterOf (world afterRefreshB) (jointKey ["dish"; "1"]) = Some 2
  ∧ checkedCounterOf (world afterRefreshB) "dish" "1" = Some 0
  ∧ ¬ shadowTracks (counterOf (world afterRefreshB) (jointKey ["dish"; "1"]))
        (self afterRefreshA) (jointKey ["dish"; "1"])
  ∧ ¬ shadowTracks (checkedCounterOf (world afterRefreshB) "dish" "1")
        (self afterRefreshA) (jointKey ["dish"; "1"]).
Proof.
  assert (version (self afterRefreshA) !! jointKey ["dish"; "1"] = Some 1)
    as Hshadow by (vm_compute; reflexivity).
  assert (buf (updates (self afterRefreshA)) = []) as Hqueue
      by (vm_compute; reflexivity).
  assert (counterOf (world afterRefreshB) (jointKey ["dish"; "1"]) = Some 2)
    as Hcount by (vm_compute; reflexivity).
  assert (checkedCounterOf (world afterRefreshB) "dish" "1" = Some 0)
    as Hchecked by (vm_compute; reflexivity).
  do 4 (split; [vm_compute; reflexivity|]).
  do 4 (split; [assumption|]).
  split; intros Htracks; destruct (Htracks 1 Hshadow) as (n & Hn & Hle & Hfly).
  - rewrite Hcount in Hn. injection Hn as <-.
    destruct Hfly as (info & Hin & _); [lia|].
    rewrite Hqueue in Hin. now apply elem_of_nil in Hin.
  - rewrite Hchecked in Hn. injection Hn as <-. lia.
Qed.

(** ** The two older revisions, where they differ from the latest *)

Section Older.
Context {Obj : Type} `{!Cacheable Obj, !Codec Obj}.

(** [RegisterLoader] of [src/cache.go] has no result and replaces a loader
    that is bound. *)
Lemma R1_RegisterLoader_replaces (s : State Obj R1.CacheConfig Obj string)
    namespace (loader : DataLoader Obj) :
  ∃ s', R1.RegisterLoader namespace loader s = Done () s'
    ∧ loaders (self s') !! namespace = Some loader.
Proof.
  unfold R1.RegisterLoader. mrun. eexists. split; [reflexivity|].
  msimpl. apply lookup_insert_eq.
Qed.

(** [parseAndDo] of [src/unnamed/part_000] reads the remote tier and leaves
    the shadow versions alone. *)
Lemma R2_parseAndDo_keeps_version (s : State Obj R2.CacheConfig string string) k :
  version (self (final (R2.parseAndDo k s))) = version (self s).
Proof.
  unfold R2.parseAndDo. mrun. destruct (rdb (self s)); [|reflexivity]. msimpl.
  destruct (redisGet k (world s)) as [[content [err|]] w]; reflexivity.
Qed.

End Older.

(** [parseAndDo] of [src/cache.go] on the notification for dish 1. *)
Lemma R1_parseAndDo_calls_loader :
  ∃ s', R1.parseAndDo "dish#$#1" (mkState servedServer ready1 []) = Done None s'
    ∧ trace s' = [LoaderCall "dish" "1"]
    ∧ c (self s') !! "dish#$#1" = Some dish1
    ∧ version (self s') = version ready1.
Proof.
  eexists. split; [vm_compute; reflexivity|]. repeat split; vm_compute; reflexivity.
Qed.

(** [get] of [src/unnamed/part_000], with a client in [rdb], reads the remote
    tier under the bare key, so that it misses the value that is stored
    under [jointKey ["dish"; "1"]]. *)
Lemma R2_get_reads_bare_key :
  ∃ s', R2.get "1" zeroDish
          (mkState servedServer
             (mkLevelCache (c ready2) (Some localhost) (loaders ready2)
                (cfg ready2) (version ready2) (updates ready2) (stop ready2)
                (locker ready2)) [])
        = Done (dish1, None) s'
    ∧ trace s' = [RedisGet "1"; LoaderCall "dish" "1";
                  RedisSet "dish#$#1" (marshalDish dish1)].
Proof.
  eexists. split; [vm_compute; reflexivity|]. vm_compute; reflexivity.
Qed.

(** * More of the package *)

(** ** Keys and their parts *)

Lemma append_assoc_string (a b d : string) : (a +:+ b) +:+ d = a +:+ (b +:+ d).
Proof.
  induction a as [|ch a IH]; [reflexivity|].
  change (String ch a +:+ b) with (String ch (a +:+ b)).
  change (String ch (a +:+ b) +:+ d) with (String ch ((a +:+ b) +:+ d)).
  now rewrite IH.
Qed.

Lemma append_empty_r (a : string) : a +:+ "" = a.
Proof.
  induction a as [|ch a IH]; [reflexivity|].
  change (String ch a +:+ "") with (String ch (a +:+ "")). now rewrite IH.
Qed.

Lemma jointKey_pair a b : jointKey [a; b] = a +:+ ("#$#" +:+ b).
Proof. reflexivity. Qed.

(** A piece without [#] holds no separator: [Split] returns it whole. *)
Lemma splitGo_plain s : ∀ cur,
  noHash s = true → splitGo cacheKeyJoint O cur s = [cur +:+ s].
Proof.
  induction s as [|ch s IH]; intros cur Hplain.
  - cbn. now rewrite append_empty_r.
  - cbn in Hplain. apply andb_true_iff in Hplain as [Hch Hplain].
    apply negb_true_iff, bool_decide_eq_false in Hch.
    cbn [splitGo].
    assert (hasPrefix cacheKeyJoint (String ch s) = false) as ->.
    { cbn. destruct (decide ("#"%char = ch)); [congruence|reflexivity]. }
    rewrite (IH _ Hplain), append_assoc_string. reflexivity.
Qed.

(** Up to the first separator, after a piece without [#]. *)
Lemma splitGo_piece a : ∀ cur t,
  noHash a = true →
  splitGo cacheKeyJoint O cur (a +:+ ("#$#" +:+ t))
  = (cur +:+ a) :: splitGo cacheKeyJoint O "" t.
Proof.
  induction a as [|ch a IH]; intros cur t Ha.
  - cbv [append]. cbn [splitGo hasPrefix cacheKeyJoint].
    repeat (destruct (decide _) as [_|?]; [|congruence]).
    cbn [String.length cacheKeyJoint Nat.sub splitGo].
    now rewrite append_empty_r.
  - cbn in Ha. apply andb_true_iff in Ha as [Hch Ha].
    apply negb_true_iff, bool_decide_eq_false in Hch.
    change (String ch a +:+ ("#$#" +:+ t))
      with (String ch (a +:+ ("#$#" +:+ t))).
    cbn [splitGo].
    assert (hasPrefix cacheKeyJoint (String ch (a +:+ ("#$#" +:+ t))) = false)
      as ->.
    { cbn. destruct (decide ("#"%char = ch)); [congruence|reflexivity]. }
    rewrite (IH _ _ Ha), append_assoc_string. reflexivity.
Qed.

Lemma splitGo_joined a cur b :
  noHash a = true → noHash b = true →
  splitGo cacheKeyJoint O cur (a +:+ ("#$#" +:+ b)) = [cur +:+ a; b].
Proof.
  intros Ha Hb. now rewrite (splitGo_piece _ _ _ Ha), (splitGo_plain _ _ Hb).
Qed.

(** X1. [splitKey] undoes [jointKey] on a namespace and a key that hold no
    [#]; on such pairs [jointKey] is therefore injective. *)
Theorem splitKey_jointKey namespace key :
  noHash namespace = true → noHash key = true →
  splitKey (jointKey [namespace; key]) = (namespace, key)
  ∧ ∀ namespace' key',
      noHash namespace' = true → noHash key' = true →
      jointKey [namespace; key] = jointKey [namespace'; key'] →
      namespace = namespace' ∧ key = key'.
Proof.
  intros Hns Hkey.
  assert (∀ a b, noHash a = true → noHash b = true →
            splitKey (jointKey [a; b]) = (a, b)) as Hsplit.
  { intros a b Ha Hb. unfold splitKey, Split.
    now rewrite jointKey_pair, (splitGo_joined _ _ _ Ha Hb). }
  split; [now apply Hsplit|].
  intros namespace' key' Hns' Hkey' Heq.
  pose proof (Hsplit _ _ Hns Hkey) as H1.
  rewrite Heq, (Hsplit _ _ Hns' Hkey') in H1. now simplify_eq.
Qed.

(** X1 at the entity of the tests. *)
Lemma splitKey_jointKey_witness :
  noHash "dish" = true ∧ noHash "1" = true
  ∧ splitKey (jointKey ["dish"; "1"]) = ("dish", "1")
  ∧ ∀ namespace' key',
      noHash namespace' = true → noHash key' = true →
      jointKey ["dish"; "1"] = jointKey [namespace'; key'] →
      "dish" = namespace' ∧ "1" = key'.
Proof.
  split; [reflexivity|]. split; [reflexivity|].
  exact (splitKey_jointKey "dish" "1" eq_refl eq_refl).
Defined.

(** X2. Without that restriction two entities can share one value key: a
    separator inside the key moves the boundary between namespace and key.
    The same shift makes the value key of the entity [(namespace, key ++
    "#$#version")] the key that the version check of [(namespace, key)]
    reads; and [splitKey] returns the part of the key before its first
    separator. *)
Theorem jointKey_collides a b d :
  jointKey [a; b +:+ "#$#" +:+ d] = jointKey [a +:+ "#$#" +:+ b; d]
  ∧ jointKey [a; b +:+ "#$#version"] = jointKey [a; b; "version"]
  ∧ (noHash a = true → noHash b = true → noHash d = true →
     splitKey (jointKey [a; b +:+ "#$#" +:+ d]) = (a, b)).
Proof.
  split; [|split].
  - rewrite !jointKey_pair, !append_assoc_string. reflexivity.
  - reflexivity.
  - intros Ha Hb Hd. unfold splitKey, Split.
    rewrite jointKey_pair.
    now rewrite (splitGo_piece _ _ _ Ha), (splitGo_joined _ _ _ Hb Hd).
Qed.

(** X2 at a key that holds a separator. *)
Lemma jointKey_collides_witness :
  jointKey ["dish"; "1" +:+ "#$#" +:+ "2"]
  = jointKey ["dish" +:+ "#$#" +:+ "1"; "2"]
  ∧ jointKey ["dish"; "1" +:+ "#$#version"] = jointKey ["dish"; "1"; "version"]
  ∧ noHash "dish" = true ∧ noHash "1" = true ∧ noHash "2" = true
  ∧ splitKey (jointKey ["dish"; "1" +:+ "#$#" +:+ "2"]) = ("dish", "1").
Proof.
  destruct (jointKey_collides "dish" "1" "2") as (Hshift & Hcheck & Hsplit).
  split; [exact Hshift|]. split; [exact Hcheck|].
  do 3 (split; [reflexivity|]). exact (Hsplit eq_refl eq_refl eq_refl).
Defined.

(** ** Configuration and construction *)

(** X3. [checkAndLoadDefault] refuses an empty address and nothing else. It
    fills each of the five fields that is zero with its default and keeps
    every other value, a negative one too; what it returns has none of the
    five at zero and is returned unchanged by a second run. *)
Theorem checkAndLoadDefault_fills p :
  (R3.RedisAddr p = "" →
   R3.checkAndLoadDefault p = inr (Errorf "invalid redis connect addr"))
  ∧ (R3.RedisAddr p ≠ "" →
     ∃ q, R3.checkAndLoadDefault p = inl q
       ∧ R3.RedisAddr q = R3.RedisAddr p
       ∧ R3.RedisDb q = R3.RedisDb p
       ∧ R3.RedisPassword q = R3.RedisPassword p
       ∧ R3.RedisPoolSize q
         = (if decide (R3.RedisPoolSize p = 0) then 40 else R3.RedisPoolSize p)
       ∧ R3.CacheExpiration q
         = (if decide (R3.CacheExpiration p = 0) then 1440 * Minute
            else R3.CacheExpiration p)
       ∧ R3.CleanupInterval q
         = (if decide (R3.CleanupInterval p = 0) then 1441 * Minute
            else R3.CleanupInterval p)
       ∧ R3.LockInterval q
         = (if decide (R3.LockInterval p = 0) then Minute else R3.LockInterval p)
       ∧ R3.MaxUpdateBuffer q
         = (if decide (R3.MaxUpdateBuffer p = 0) then 100
            else R3.MaxUpdateBuffer p)
       ∧ R3.RedisPoolSize q ≠ 0 ∧ R3.CacheExpiration q ≠ 0
       ∧ R3.CleanupInterval q ≠ 0 ∧ R3.LockInterval q ≠ 0
       ∧ R3.MaxUpdateBuffer q ≠ 0
       ∧ R3.checkAndLoadDefault q = inl q).
Proof.
  assert (∀ x d, d ≠ 0 →
            R3.orDefault x d = (if decide (x = 0) then d else x)
            ∧ R3.orDefault x d ≠ 0
            ∧ R3.orDefault (R3.orDefault x d) d = R3.orDefault x d) as Hor.
  { intros x d Hd. unfold R3.orDefault.
    destruct (Z.eqb_spec x 0) as [->|Hx]; destruct (decide _); try lia.
    - destruct (Z.eqb_spec d 0); [lia|auto].
    - destruct (Z.eqb_spec x 0); [lia|auto]. }
  unfold R3.checkAndLoadDefault. split.
  - intros Hempty. destruct (decide _); [reflexivity|contradiction].
  - intros Haddr. destruct (decide _) as [|_]; [contradiction|].
    eexists. split; [reflexivity|].
    cbn [R3.RedisAddr R3.RedisDb R3.RedisPassword R3.RedisPoolSize
         R3.CacheExpiration R3.CleanupInterval R3.LockInterval
         R3.MaxUpdateBuffer].
    destruct (decide (R3.RedisAddr p = "")) as [|_]; [contradiction|].
    destruct (Hor (R3.RedisPoolSize p) 40) as (-> & Hp & Hp'); [lia|].
    destruct (Hor (R3.CacheExpiration p) R3.defaultCacheInvalidInterval)
      as (He & He0 & He'); [unfold R3.defaultCacheInvalidInterval, Minute,
                             Millisecond; lia|].
    destruct (Hor (R3.CleanupInterval p) R3.defaultCleanupInterval)
      as (Hc & Hc0 & Hc'); [unfold R3.defaultCleanupInterval, Minute,
                             Millisecond; lia|].
    destruct (Hor (R3.LockInterval p) R3.defaultUpdateLockInterval)
      as (Hl & Hl0 & Hl'); [unfold R3.defaultUpdateLockInterval, Minute,
                             Millisecond; lia|].
    destruct (Hor (R3.MaxUpdateBuffer p) R3.defaultMaxUpdateBuffer)
      as (Hm & Hm0 & Hm'); [unfold R3.defaultMaxUpdateBuffer; lia|].
    rewrite Hp', He', Hc', Hl', Hm'.
    repeat split; try assumption; try reflexivity.
Qed.

(** X3 at the configuration of the tests and at the empty configuration. *)
Lemma checkAndLoadDefault_fills_witness :
  R3.RedisAddr (R3.mkConfig "" 0 "" 0 0 0 0 0) = ""
  ∧ R3.checkAndLoadDefault (R3.mkConfig "" 0 "" 0 0 0 0 0)
    = inr (Errorf "invalid redis connect addr")
  ∧ R3.RedisAddr testConfig ≠ ""
  ∧ ∃ q, R3.checkAndLoadDefault testConfig = inl q
      ∧ R3.RedisPoolSize q = 10
      ∧ R3.MaxUpdateBuffer q = 100
      ∧ R3.checkAndLoadDefault q = inl q.
Proof.
  assert (R3.RedisAddr testConfig ≠ "") as Haddr by discriminate.
  destruct (checkAndLoadDefault_fills (R3.mkConfig "" 0 "" 0 0 0 0 0))
    as [Hrefuse _].
  destruct (checkAndLoadDefault_fills testConfig) as [_ Hfill].
  split; [reflexivity|]. split; [exact (Hrefuse eq_refl)|].
  split; [exact Haddr|].
  destruct (Hfill Haddr)
    as (q & Hq & _ & _ & _ & Hpool & _ & _ & _ & Hbuf & _ & _ & _ & _ & _ & Hid).
  exists q. repeat split; assumption.
Defined.

Section NewOutcomes.
Context {Obj : Type} `{!Cacheable Obj, !Codec Obj}.

(** X4. What [New] does, by its configuration and by the ping. An empty
    address is refused before the server is contacted; a negative
    [MaxUpdateBuffer] makes [make] panic, before the ping as well; a failed
    ping is returned as the error, with no instance; otherwise the instance
    has empty tiers, registry and shadow versions, an open empty queue of the
    configured size (100 when unset), a stop channel with room for one signal,
    the completed configuration, and the pinged client in both [rdb] and
    [locker]. *)
Theorem New_outcomes conf w :
  (R3.RedisAddr conf = "" →
   R3.New (Obj := Obj) conf w
   = Done (None, Some (Errorf "invalid redis connect addr")) w)
  ∧ (R3.RedisAddr conf ≠ "" → R3.MaxUpdateBuffer conf < 0 →
     R3.New (Obj := Obj) conf w = Panic w)
  ∧ (R3.RedisAddr conf ≠ "" → 0 ≤ R3.MaxUpdateBuffer conf →
     match redisPing w with
     | (Some err, w') => R3.New (Obj := Obj) conf w = Done (None, Some err) w'
     | (None, w') =>
         ∃ lc, R3.New (Obj := Obj) conf w = Done (Some lc, None) w'
           ∧ c lc = ∅ ∧ loaders lc = ∅ ∧ version lc = ∅
           ∧ updates lc
             = mkChan [] (Z.to_nat (if decide (R3.MaxUpdateBuffer conf = 0)
                                    then 100 else R3.MaxUpdateBuffer conf))
                 false
           ∧ stop lc = mkChan [] 1 false
           ∧ R3.checkAndLoadDefault conf = inl (cfg lc)
           ∧ rdb lc = Some (mkClient (R3.RedisAddr conf)
                              (R3.RedisPassword conf) (R3.RedisDb conf))
           ∧ locker lc = rdb lc
     end).
Proof.
  unfold R3.New, R3.checkAndLoadDefault. munfold. split; [|split].
  - intros Hempty. destruct (decide _); [reflexivity|contradiction].
  - intros Haddr Hneg. destruct (decide _) as [|_]; [contradiction|].
    cbn [R3.MaxUpdateBuffer]. unfold R3.orDefault.
    destruct (Z.eqb_spec (R3.MaxUpdateBuffer conf) 0); [lia|].
    destruct (Z.ltb_spec (R3.MaxUpdateBuffer conf) 0); [reflexivity|lia].
  - intros Haddr Hsize. destruct (decide _) as [|_]; [contradiction|].
    cbn [R3.MaxUpdateBuffer R3.RedisAddr R3.RedisPassword R3.RedisDb].
    assert (R3.orDefault (R3.MaxUpdateBuffer conf) R3.defaultMaxUpdateBuffer
            = (if decide (R3.MaxUpdateBuffer conf = 0) then 100
               else R3.MaxUpdateBuffer conf)) as ->.
    { unfold R3.orDefault.
      destruct (Z.eqb_spec (R3.MaxUpdateBuffer conf) 0); destruct (decide _);
        try lia; reflexivity. }
    assert (((if decide (R3.MaxUpdateBuffer conf = 0) then 100
              else R3.MaxUpdateBuffer conf) <? 0) = false) as ->.
    { destruct (decide _); apply Z.ltb_ge; lia. }
    destruct (redisPing w) as [[err|] w']; [reflexivity|].
    eexists. split; [reflexivity|]. cbn. repeat split.
Qed.

End NewOutcomes.

(** X4 at the configuration of the tests, at the empty configuration and at
    a negative queue size, on a server that answers. *)
Lemma New_outcomes_witness :
  R3.RedisAddr (R3.mkConfig "" 0 "" 0 0 0 0 0) = ""
  ∧ R3.New (Obj := Dish) (R3.mkConfig "" 0 "" 0 0 0 0 0) emptyServer
    = Done (None, Some (Errorf "invalid redis connect addr")) emptyServer
  ∧ R3.MaxUpdateBuffer (R3.mkConfig "localhost:6379" 0 "" 0 0 0 0 (-1)) < 0
  ∧ R3.New (Obj := Dish) (R3.mkConfig "localhost:6379" 0 "" 0 0 0 0 (-1))
      emptyServer
    = Panic emptyServer
  ∧ R3.RedisAddr testConfig ≠ ""
  ∧ 0 ≤ R3.MaxUpdateBuffer testConfig
  ∧ ∃ lc, R3.New (Obj := Dish) testConfig emptyServer
          = Done (Some lc, None) emptyServer
      ∧ capacity (updates lc) = 100%nat
      ∧ rdb lc = Some localhost.
Proof.
  assert (R3.RedisAddr testConfig ≠ "") as Haddr by discriminate.
  assert (R3.RedisAddr (R3.mkConfig "localhost:6379" 0 "" 0 0 0 0 (-1)) ≠ "")
    as Haddr' by discriminate.
  assert (0 ≤ R3.MaxUpdateBuffer testConfig) as Hsize by (cbn; lia).
  assert (R3.MaxUpdateBuffer (R3.mkConfig "localhost:6379" 0 "" 0 0 0 0 (-1))
          < 0) as Hneg by (cbn; lia).
  destruct (New_outcomes (Obj := Dish) (R3.mkConfig "" 0 "" 0 0 0 0 0)
              emptyServer) as [Hrefuse _].
  destruct (New_outcomes (Obj := Dish)
              (R3.mkConfig "localhost:6379" 0 "" 0 0 0 0 (-1)) emptyServer)
    as (_ & Hpanic & _).
  destruct (New_outcomes (Obj := Dish) testConfig emptyServer)
    as (_ & _ & Hping).
  split; [reflexivity|]. split; [exact (Hrefuse eq_refl)|].
  split; [exact Hneg|]. split; [exact (Hpanic Haddr' Hneg)|].
  split; [exact Haddr|]. split; [exact Hsize|].
  destruct (Hping Haddr Hsize) as (lc & Hnew & _ & _ & _ & Hq & _ & _ & Hrdb & _).
  exists lc. split; [exact Hnew|]. split; [|exact Hrdb].
  now rewrite Hq.
Defined.

(** ** The loader registry, in bulk *)

Lemma foldl_insert_union {A} (l : list (string * A)) :
  NoDup l.*1 →
  ∀ m : gmap string A,
    foldl (λ acc b, <[b.1 := b.2]> acc) m l = list_to_map l ∪ m.
Proof.
  induction l as [|[k v] l IH]; intros Hnodup m; cbn.
  - now rewrite (left_id_L ∅ (∪)).
  - apply NoDup_cons in Hnodup as [Hk Hnodup].
    rewrite (IH Hnodup), <- insert_union_l.
    now rewrite insert_union_r by now apply not_elem_of_list_to_map_1.
Qed.

Section Bulk.
Context {Obj : Type} `{!Cacheable Obj, !Codec Obj}.
Implicit Types s : State Obj R3.CacheConfig string R3.versionInfo.

Lemma registerAll_run (l : list (string * DataLoader Obj)) : ∀ s,
  ∃ s', R3.registerAll l s = Done () s'
    ∧ loaders (self s') = foldl (λ acc b, <[b.1 := b.2]> acc) (loaders (self s)) l
    ∧ world s' = world s ∧ trace s' = trace s
    ∧ c (self s') = c (self s) ∧ version (self s') = version (self s)
    ∧ updates (self s') = updates (self s).
Proof.
  induction l as [|[namespace loader] l IH]; intros s; cbn [R3.registerAll].
  - exists s. repeat split.
  - mrun.
    destruct (IH (mkState (world s)
                    (mkLevelCache (c (self s)) (rdb (self s))
                       (<[namespace := loader]> (loaders (self s)))
                       (cfg (self s)) (version (self s)) (updates (self s))
                       (stop (self s)) (locker (self s))) (trace s)))
      as (s' & Hrun & Hrest).
    exists s'. split; [exact Hrun|exact Hrest].
Qed.

(** X5. [RegisterLoaders] binds every namespace of its argument, replacing a
    loader that is already bound, without an error and whatever the order in
    which the loop meets the bindings: the registry becomes the union of the
    argument and the old registry, the argument winning. Nothing else
    changes. *)
Theorem RegisterLoaders_replaces s (new : gmap string (DataLoader Obj)) :
  ∃ s', R3.RegisterLoaders new s = Done () s'
    ∧ loaders (self s') = new ∪ loaders (self s)
    ∧ (∀ namespace loader, new !! namespace = Some loader →
         loaders (self s') !! namespace = Some loader)
    ∧ (∀ namespace, new !! namespace = None →
         loaders (self s') !! namespace = loaders (self s) !! namespace)
    ∧ world s' = world s ∧ trace s' = trace s
    ∧ c (self s') = c (self s) ∧ version (self s') = version (self s)
    ∧ ∀ l, l ≡ₚ map_to_list new →
        ∃ s'', R3.registerAll l s = Done () s''
          ∧ loaders (self s'') = loaders (self s').
Proof.
  assert (∀ l, l ≡ₚ map_to_list new →
            ∃ s'', R3.registerAll l s = Done () s''
              ∧ loaders (self s'') = new ∪ loaders (self s)
              ∧ world s'' = world s ∧ trace s'' = trace s
              ∧ c (self s'') = c (self s)
              ∧ version (self s'') = version (self s)) as Hany.
  { intros l Hperm.
    destruct (registerAll_run l s) as (s'' & Hrun & Hl & Hw & Ht & Hc & Hv & _).
    exists s''. split; [exact Hrun|]. repeat split; try assumption.
    assert (NoDup l.*1) as Hnodup
      by (rewrite Hperm; apply NoDup_fst_map_to_list).
    rewrite Hl, (foldl_insert_union _ Hnodup).
    now rewrite (list_to_map_proper _ _ Hnodup Hperm), list_to_map_to_list. }
  unfold R3.RegisterLoaders.
  destruct (decide (0 < size new)%nat) as [Hpos|Hzero].
  - destruct (Hany _ (reflexivity _)) as (s' & Hrun & Hl & Hw & Ht & Hc & Hv).
    exists s'. split; [exact Hrun|]. split; [exact Hl|].
    split; [|split].
    + intros namespace loader Hin. rewrite Hl.
      now apply lookup_union_Some_l.
    + intros namespace Hout. rewrite Hl. now apply lookup_union_r.
    + repeat split; try assumption. intros l Hperm.
      destruct (Hany l Hperm) as (s'' & Hrun' & Hl' & _).
      exists s''. split; [exact Hrun'|congruence].
  - assert (new = ∅) as -> by (apply map_size_empty_inv; lia).
    exists s. split; [reflexivity|]. rewrite (left_id_L ∅ (∪)).
    split; [reflexivity|]. split; [intros ? ? Hin; now rewrite lookup_empty in Hin|].
    split; [reflexivity|]. repeat split.
    intros l Hperm. rewrite map_to_list_empty in Hperm.
    apply Permutation_nil_r in Hperm as ->. exists s. now split.
Qed.

End Bulk.

(** X5 at the registry of the tests: "dish" is rebound without an error. *)
Lemma RegisterLoaders_replaces_witness :
  loaders ready3 !! "dish" = Some GetDish
  ∧ ∃ s', R3.RegisterLoaders
            {[ "dish" := ((λ _, inl dish1) : DataLoader Dish) ]}
            (mkState emptyServer ready3 [])
          = Done () s'
      ∧ loaders (self s') !! "dish" = Some (λ _, inl dish1).
Proof.
  split; [reflexivity|].
  destruct (RegisterLoaders_replaces (mkState emptyServer ready3 [])
              {[ "dish" := ((λ _, inl dish1) : DataLoader Dish) ]})
    as (s' & Hrun & _ & Hin & _).
  exists s'. split; [exact Hrun|]. apply Hin, lookup_singleton_eq.
Defined.

(** ** Stopping the worker *)

Section Stopping.
Context {Obj : Type} `{!Cacheable Obj, !Codec Obj}.
Implicit Types s : State Obj R3.CacheConfig string R3.versionInfo.

(** X6. [Stop] on an instance from [New] (open channels, no signal pending,
    room for one) returns, and the worker's turn on that signal closes both
    channels and ends the worker without a command to the remote tier: the
    notifications still in the queue are left there, applied to neither the
    local tier nor the shadow versions. From then on a further [Stop]
    panics, and so does the stop turn of any other worker that [Start] has
    spawned. A second [Stop] before the worker has taken the first blocks. *)
Theorem Stop_closes_without_draining s :
  closed (stop (self s)) = false →
  buf (stop (self s)) = [] →
  capacity (stop (self s)) = 1%nat →
  closed (updates (self s)) = false →
  ∃ s1 s2,
    R3.Stop s = Done () s1
    ∧ R3.Stop s1 = Parked s1
    ∧ R3.workerStop s1 = Done () s2
    ∧ closed (stop (self s2)) = true
    ∧ closed (updates (self s2)) = true
    ∧ buf (updates (self s2)) = buf (updates (self s))
    ∧ c (self s2) = c (self s)
    ∧ version (self s2) = version (self s)
    ∧ world s2 = world s
    ∧ trace s2 = trace s
    ∧ R3.Stop s2 = Panic s2
    ∧ R3.workerStop s2 = Panic s2.
Proof.
  intros Hopen Hnone Hcap Hqueue. unfold R3.Stop, R3.workerStop. mrun.
  rewrite Hopen, Hnone, Hcap. cbn [List.length app].
  destruct (decide (0 < 1)%nat) as [_|?]; [|lia].
  eexists _, _. split; [reflexivity|]. msimpl. cbn [List.length].
  destruct (decide (1 < 1)%nat) as [?|_]; [lia|].
  split; [reflexivity|]. rewrite Hqueue. msimpl.
  split; [reflexivity|]. msimpl. repeat split.
Qed.

End Stopping.

(** X6 at the instance of the tests with a notification in its queue. *)
Lemma Stop_closes_without_draining_witness :
  closed (stop (self notified)) = false
  ∧ buf (stop (self notified)) = []
  ∧ capacity (stop (self notified)) = 1%nat
  ∧ closed (updates (self notified)) = false
  ∧ ∃ s1 s2,
      R3.Stop notified = Done () s1
      ∧ R3.Stop s1 = Parked s1
      ∧ R3.workerStop s1 = Done () s2
      ∧ closed (stop (self s2)) = true
      ∧ closed (updates (self s2)) = true
      ∧ buf (updates (self s2)) = buf (updates (self notified))
      ∧ c (self s2) = c (self notified)
      ∧ version (self s2) = version (self notified)
      ∧ world s2 = world notified
      ∧ trace s2 = trace notified
      ∧ R3.Stop s2 = Panic s2
      ∧ R3.workerStop s2 = Panic s2.
Proof.
  do 4 (split; [reflexivity|]).
  exact (Stop_closes_without_draining notified eq_refl eq_refl eq_refl eq_refl).
Defined.

(** ** [Get] off the main path *)

Lemma redisGet_outage key w : outage (redisGet key w).2 = tail (outage w).
Proof.
  unfold redisGet, reach. destruct (outage w) as [|[] out] eqn:Hout; cbn;
    try destruct (redis w !! key); cbn; auto.
Qed.

Lemma redisGet_down key w rest :
  outage w = true :: rest → (redisGet key w).1 = ("", Some redisFailure).
Proof. intros Hdown. unfold redisGet, reach. now rewrite Hdown. Qed.

Section GetEdges.
Context {Obj : Type} `{!Cacheable Obj, !Codec Obj}.
Implicit Types s : State Obj R3.CacheConfig string R3.versionInfo.

(** [get] gives up on a failure of the remote read other than "no value". *)
Lemma get_remote_failure s key obj cl err content :
  rdb (self s) = Some cl →
  c (self s) !! jointKey [Namespace obj; key] = None →
  (redisGet (jointKey [Namespace obj; key]) (world s)).1 = (content, Some err) →
  err ≠ redisNil →
  R3.get key obj s
  = Done (obj, Some err)
      (mkState (redisGet (jointKey [Namespace obj; key]) (world s)).2 (self s)
         (trace s ++ [RedisGet (jointKey [Namespace obj; key])])).
Proof.
  intros Hrdb Hlocal Hremote Herr. unfold R3.get. mrun.
  rewrite Hlocal, Hrdb. msimpl.
  destruct (redisGet _ (world s)) as [[content' err'] w]. msimpl.
  injection Hremote as -> ->.
  rewrite bool_decide_true by (split; congruence). reflexivity.
Qed.

(** X7. When the version check of [Get] finds the checked counter different
    from the shadow version, what follows depends on the queue: closed (the
    worker has stopped), [Get] panics; full, [Get] blocks; in both cases
    before any tier is read and before a loader is called. With room, the
    check appends one notification with the value key and the counter
    read. *)
Theorem Get_on_mismatch s key obj cl content latest current :
  rdb (self s) = Some cl →
  (redisGet (jointKey [Namespace obj; key; "version"]) (world s)).1
  = (content, None) →
  ParseInt content = Some latest →
  version (self s) !! jointKey [Namespace obj; key] = Some current →
  latest ≠ current →
  let s1 := mkState
              (redisGet (jointKey [Namespace obj; key; "version"]) (world s)).2
              (self s)
              (trace s ++ [RedisGet (jointKey [Namespace obj; key; "version"])])
  in
  (closed (updates (self s)) = true → R3.Get key obj s = Panic s1)
  ∧ (closed (updates (self s)) = false →
     (capacity (updates (self s)) ≤ List.length (buf (updates (self s))))%nat →
     R3.Get key obj s = Parked s1)
  ∧ (closed (updates (self s)) = false →
     (List.length (buf (updates (self s))) < capacity (updates (self s)))%nat →
     ∃ s2, R3.checkCacheUpdate (Namespace obj) key s = Done () s2
       ∧ buf (updates (self s2))
         = buf (updates (self s))
           ++ [R3.mkInfo (jointKey [Namespace obj; key]) latest]
       ∧ c (self s2) = c (self s) ∧ version (self s2) = version (self s)
       ∧ world s2 = world s1 ∧ trace s2 = trace s1).
Proof.
  intros Hrdb Hread Hparse Hshadow Hne s1. subst s1.
  rewrite Get_unfold. unfold R3.checkCacheUpdate. mrun. rewrite Hrdb. msimpl.
  destruct (redisGet _ (world s)) as [[content' err] w]. msimpl.
  injection Hread as -> ->. rewrite Hparse. msimpl. rewrite Hshadow.
  destruct (decide (latest ≠ current)) as [_|?]; [|contradiction]. msimpl.
  split; [|split].
  - intros Hclosed. now rewrite Hclosed.
  - intros Hopen Hfull. rewrite Hopen.
    destruct (decide _) as [?|_]; [lia|reflexivity].
  - intros Hopen Hroom. rewrite Hopen.
    destruct (decide _) as [_|?]; [|lia].
    eexists. split; [reflexivity|]. msimpl. repeat split.
Qed.

(** X8. A [Get] that misses both tiers in a namespace without a loader
    returns the error "data loader [namespace] not found", after the two
    remote reads and with nothing written. *)
Theorem Get_without_loader s key obj cl :
  rdb (self s) = Some cl →
  outage (world s) = [] →
  closed (updates (self s)) = false →
  (List.length (buf (updates (self s))) < capacity (updates (self s)))%nat →
  c (self s) !! jointKey [Namespace obj; key] = None →
  redis (world s) !! jointKey [Namespace obj; key] = None →
  loaders (self s) !! Namespace obj = None →
  ∃ s', R3.Get key obj s
        = Done (obj, Some (Errorf ("data loader [" +:+ Namespace obj
                                    +:+ "] not found"))) s'
    ∧ added s s' = [RedisGet (jointKey [Namespace obj; key; "version"]);
                    RedisGet (jointKey [Namespace obj; key])]
    ∧ c (self s') = c (self s)
    ∧ redis (world s') = redis (world s)
    ∧ version (self s') = version (self s).
Proof.
  intros Hrdb Hup Hopen Hroom Hlocal Hremote Hnone.
  destruct (checkCacheUpdate_returns s (Namespace obj) key cl Hrdb Hopen Hroom)
    as [s1 Hcheck].
  pose proof (checkCacheUpdate_frame s (Namespace obj) key cl Hrdb) as Hframe.
  rewrite Hcheck in Hframe. msimpl.
  destruct Hframe as (Htrace & Hworld & Hc & Hversion & Hloaders & Hrdb1 & _).
  rewrite (redisGet_up _ _ Hup) in Hworld. msimpl.
  rewrite Get_unfold, Hcheck.
  rewrite (get_full_miss _ _ _ cl); try congruence;
    [|rewrite Hworld, (redisGet_up _ _ Hup), Hremote; reflexivity].
  unfold R3.loadThrough. mrun. rewrite Hloaders, Hnone.
  eexists. split; [reflexivity|]. unfold added. msimpl.
  rewrite Hworld, (redisGet_up _ _ Hup), Htrace. msimpl.
  rewrite <- !app_assoc, drop_app_length. repeat split; assumption.
Qed.

(** X9. A [Get] that misses the local tier while the read of the value does
    not reach the server returns that failure: no loader is called and
    nothing is written, whether or not the version check before it reached
    the server. *)
Theorem Get_remote_unreachable s key obj cl reached rest :
  rdb (self s) = Some cl →
  outage (world s) = reached :: true :: rest →
  closed (updates (self s)) = false →
  (List.length (buf (updates (self s))) < capacity (updates (self s)))%nat →
  c (self s) !! jointKey [Namespace obj; key] = None →
  ∃ s', R3.Get key obj s = Done (obj, Some redisFailure) s'
    ∧ added s s' = [RedisGet (jointKey [Namespace obj; key; "version"]);
                    RedisGet (jointKey [Namespace obj; key])]
    ∧ c (self s') = c (self s)
    ∧ redis (world s') = redis (world s)
    ∧ version (self s') = version (self s).
Proof.
  intros Hrdb Hout Hopen Hroom Hlocal.
  destruct (checkCacheUpdate_returns s (Namespace obj) key cl Hrdb Hopen Hroom)
    as [s1 Hcheck].
  pose proof (checkCacheUpdate_frame s (Namespace obj) key cl Hrdb) as Hframe.
  rewrite Hcheck in Hframe. msimpl.
  destruct Hframe as (Htrace & Hworld & Hc & Hversion & Hloaders & Hrdb1 & _).
  assert (outage (world s1) = true :: rest) as Hdown
      by now rewrite Hworld, redisGet_outage, Hout.
  rewrite Get_unfold, Hcheck.
  rewrite (get_remote_failure _ _ _ cl redisFailure "");
    [|congruence|congruence|exact (redisGet_down _ _ _ Hdown)|discriminate].
  eexists. split; [reflexivity|]. unfold added. msimpl.
  rewrite Htrace, <- !app_assoc, drop_app_length, redisGet_redis, Hworld,
    redisGet_redis.
  repeat split; assumption.
Qed.

(** X10. A [Get] of an entity with a local entry is served from it while the
    server is out of reach: the version check fails silently, the result is
    the local entry decoded, nothing is queued and nothing changes. *)
Theorem Get_local_while_down s key obj cl content rest :
  rdb (self s) = Some cl →
  outage (world s) = true :: rest →
  c (self s) !! jointKey [Namespace obj; key] = Some content →
  ∃ s', R3.Get key obj s
        = Done (match UnmarshalFromString content obj with
                | inl obj' => (obj', None)
                | inr err => (obj, Some err)
                end) s'
    ∧ added s s' = [RedisGet (jointKey [Namespace obj; key; "version"])]
    ∧ self s' = self s
    ∧ redis (world s') = redis (world s).
Proof.
  intros Hrdb Hdown Hlocal.
  rewrite Get_unfold. unfold R3.checkCacheUpdate. mrun. rewrite Hrdb. msimpl.
  pose proof (redisGet_down (jointKey [Namespace obj; key; "version"]) _ _
                Hdown) as Hfail.
  pose proof (redisGet_redis (jointKey [Namespace obj; key; "version"])
                (world s)) as Hsame.
  destruct (redisGet _ (world s)) as [[content' err] w]. msimpl.
  injection Hfail as -> ->.
  rewrite (get_local_hit _ key obj content) by exact Hlocal.
  eexists. split; [reflexivity|]. unfold added. msimpl.
  rewrite drop_app_length. repeat split. exact Hsame.
Qed.

End GetEdges.

Lemma Get_on_mismatch_witness :
  (∃ s1, R3.Get "1" zeroDish (behind (mkChan [] 100 true)) = Panic s1
     ∧ added (behind (mkChan [] 100 true)) s1
       = [RedisGet (jointKey ["dish"; "1"; "version"])])
  ∧ (∃ s1, R3.Get "1" zeroDish (behind (mkChan [R3.mkInfo "dish#$#2" 1] 1 false))
           = Parked s1
       ∧ added (behind (mkChan [R3.mkInfo "dish#$#2" 1] 1 false)) s1
         = [RedisGet (jointKey ["dish"; "1"; "version"])])
  ∧ ∃ s2, R3.checkCacheUpdate "dish" "1" (behind (mkChan [] 100 false))
          = Done () s2
      ∧ buf (updates (self s2)) = [R3.mkInfo (jointKey ["dish"; "1"]) 5].
Proof.
  split; [|split].
  - eexists. split; [exact (proj1 (Get_on_mismatch (behind (mkChan [] 100 true)) "1" zeroDish
                    localhost "5" 5 0 eq_refl eq_refl eq_refl eq_refl
                    ltac:(discriminate)) eq_refl)|reflexivity].
  - eexists. split; [exact (proj1 (proj2 (Get_on_mismatch
                           (behind (mkChan [R3.mkInfo "dish#$#2" 1] 1 false))
                           "1" zeroDish localhost "5" 5 0 eq_refl eq_refl
                           eq_refl eq_refl ltac:(discriminate)))
             eq_refl ltac:(cbn; lia))|reflexivity].
  - destruct (proj2 (proj2 (Get_on_mismatch (behind (mkChan [] 100 false)) "1"
                              zeroDish localhost "5" 5 0 ltac:(reflexivity)
                              ltac:(reflexivity) ltac:(reflexivity)
                              ltac:(reflexivity) ltac:(discriminate)))
                ltac:(reflexivity) ltac:(cbn; lia)) as (s2 & Hrun & Hbuf & _).
    exists s2. split; [exact Hrun|exact Hbuf].
Defined.

Lemma Get_without_loader_witness :
  rdb fresh3 = Some localhost
  ∧ loaders fresh3 !! "dish" = None
  ∧ ∃ s', R3.Get "1" zeroDish (mkState emptyServer fresh3 [])
          = Done (zeroDish, Some (Errorf "data loader [dish] not found")) s'
      ∧ added (mkState emptyServer fresh3 []) s'
        = [RedisGet (jointKey ["dish"; "1"; "version"]);
           RedisGet (jointKey ["dish"; "1"])]
      ∧ c (self s') = c fresh3
      ∧ redis (world s') = redis emptyServer
      ∧ version (self s') = version fresh3.
Proof.
  do 2 (split; [reflexivity|]).
  exact (Get_without_loader (mkState emptyServer fresh3 []) "1" zeroDish
           localhost eq_refl eq_refl eq_refl ltac:(cbn; lia) eq_refl eq_refl
           eq_refl).
Defined.

Lemma Get_remote_unreachable_witness :
  outage (flakyServer [false; true]) = [false; true]
  ∧ ∃ s', R3.Get "1" zeroDish (mkState (flakyServer [false; true]) ready3 [])
          = Done (zeroDish, Some redisFailure) s'
      ∧ added (mkState (flakyServer [false; true]) ready3 []) s'
        = [RedisGet (jointKey ["dish"; "1"; "version"]);
           RedisGet (jointKey ["dish"; "1"])]
      ∧ c (self s') = c ready3
      ∧ redis (world s') = redis (flakyServer [false; true])
      ∧ version (self s') = version ready3.
Proof.
  split; [reflexivity|].
  exact (Get_remote_unreachable
           (mkState (flakyServer [false; true]) ready3 []) "1" zeroDish
           localhost false [] eq_refl eq_refl eq_refl ltac:(cbn; lia) eq_refl).
Defined.

Lemma Get_local_while_down_witness :
  ∃ s', R3.Get "1" zeroDish
          (mkState (flakyServer [true]) (self (behind (updates ready3))) [])
        = Done (staleDish, None) s'
    ∧ added (mkState (flakyServer [true]) (self (behind (updates ready3))) [])
        s'
      = [RedisGet (jointKey ["dish"; "1"; "version"])]
    ∧ self s' = self (behind (updates ready3))
    ∧ redis (world s') = redis (flakyServer [true]).
Proof.
  exact (Get_local_while_down
           (mkState (flakyServer [true]) (self (behind (updates ready3))) [])
           "1" zeroDish localhost (marshalDish staleDish) [] eq_refl eq_refl
           eq_refl).
Defined.

(** ** What [Get] and [Refresh] write *)

Lemma redisSet_other key value w k :
  k ≠ key → redis (redisSet key value w).2 !! k = redis w !! k.
Proof.
  intros Hne. unfold redisSet, reach.
  destruct (outage w) as [|[] out]; cbn; rewrite ?lookup_insert_ne by done;
    reflexivity.
Qed.

Lemma redisIncr_other key w k :
  k ≠ key → redis (redisIncr key w).2 !! k = redis w !! k.
Proof.
  intros Hne. unfold redisIncr, reach.
  destruct (outage w) as [|[] out]; cbn; try reflexivity;
    destruct (match redis w !! key with Some v => string2ll v | None => Some 0 end)
      as [n|]; try reflexivity;
    destruct (n <? 2 ^ 63 - 1); cbn; rewrite ?lookup_insert_ne by done;
    reflexivity.
Qed.

Lemma lockObtain_other key w k :
  k ≠ key → redis (lockObtain key w).2 !! k = redis w !! k.
Proof.
  intros Hne. unfold lockObtain, reach. cbn.
  destruct (outage w) as [|[] out]; cbn; try reflexivity;
    destruct (redis w !! key); cbn; rewrite ?lookup_insert_ne by done;
    reflexivity.
Qed.

Lemma lockRelease_other l w k :
  k ≠ lockKey l → redis (lockRelease l w).2 !! k = redis w !! k.
Proof.
  intros Hne. unfold lockRelease, reach.
  destruct (outage w) as [|[] out]; cbn; try reflexivity;
    destruct (decide _); cbn; rewrite ?lookup_delete_ne by done; reflexivity.
Qed.

Section Footprint.
Context {Obj : Type} `{!Cacheable Obj, !Codec Obj}.
Variables (lk rk : list string) (queue : bool).
Implicit Types s : State Obj R3.CacheConfig string R3.versionInfo.

Lemma footprint_refl s : footprint lk rk queue s s.
Proof. unfold footprint. repeat split. Qed.

Lemma footprint_trans s0 s1 s2 :
  footprint lk rk queue s0 s1 → footprint lk rk queue s1 s2 →
  footprint lk rk queue s0 s2.
Proof.
  intros (Hl & Hr & Hq & Hlo & Hcfg & Hrdb & Hlock & Hstop)
         (Hl' & Hr' & Hq' & Hlo' & Hcfg' & Hrdb' & Hlock' & Hstop').
  unfold footprint. split; [|split; [|split]]; [| | |repeat split; congruence].
  - intros k Hk. destruct (Hl k Hk), (Hl' k Hk). split; congruence.
  - intros k Hk. rewrite (Hr' k Hk). auto.
  - intros Hfrozen. rewrite (Hq' Hfrozen). auto.
Qed.

Variable s0 : State Obj R3.CacheConfig string R3.versionInfo.

Local Abbreviation kept m :=
  (triple (footprint lk rk queue s0) m (λ _, footprint lk rk queue s0)
     (footprint lk rk queue s0)).

Lemma kept_step {A} (m : M _ A) :
  (∀ s, footprint lk rk queue s (final (m s))) → kept m.
Proof.
  intros Hstep s Hs. specialize (Hstep s).
  destruct (m s); msimpl; eapply footprint_trans; eauto.
Qed.

Lemma kept_getSelf : kept (getSelf (Note := R3.versionInfo)).
Proof. apply kept_step. intros s. apply footprint_refl. Qed.

Lemma kept_cGet k : kept (cGet (Note := R3.versionInfo) k).
Proof. apply kept_step. intros s. apply footprint_refl. Qed.

Lemma kept_callLoader namespace (loader : DataLoader Obj) key :
  kept (callLoader (Note := R3.versionInfo) (Item := string)
          (Cfg := R3.CacheConfig) namespace loader key).
Proof. apply kept_step. intros s. unfold footprint. repeat split. Qed.

Lemma kept_cSet k x : k ∈ lk → kept (cSet (Note := R3.versionInfo) k x).
Proof.
  intros Hin. apply kept_step. intros s. unfold cSet, footprint. mrun.
  repeat split. apply lookup_insert_ne. now intros ->.
Qed.

Lemma kept_setVersion k v :
  k ∈ lk →
  kept (setVersion (Obj := Obj) (Cfg := R3.CacheConfig) (Item := string)
          (Note := R3.versionInfo) k v).
Proof.
  intros Hin. apply kept_step. intros s. unfold setVersion, footprint. mrun.
  repeat split. apply lookup_insert_ne. now intros ->.
Qed.

Lemma kept_send x :
  queue = true →
  kept (send (Obj := Obj) (Cfg := R3.CacheConfig) (Item := string) x).
Proof.
  intros Hq. apply kept_step. intros s. unfold send, footprint. mrun.
  destruct (closed (updates (self s))); [repeat split|].
  destruct (decide _); msimpl; repeat split; congruence.
Qed.

Lemma kept_rdbGet key :
  kept (rdbGet (Obj := Obj) (Cfg := R3.CacheConfig) (Item := string)
          (Note := R3.versionInfo) key).
Proof.
  apply kept_step. intros s. unfold rdbGet, footprint. mrun.
  destruct (rdb (self s)) as [cl|] eqn:Hrdb; [|repeat split; auto]. msimpl.
  pose proof (redisGet_redis key (world s)) as Hsame.
  destruct (redisGet key (world s)) as [res w]. msimpl.
  repeat split; auto. now rewrite Hsame.
Qed.

Lemma kept_rdbSet key value :
  key ∈ rk →
  kept (rdbSet (Obj := Obj) (Cfg := R3.CacheConfig) (Item := string)
          (Note := R3.versionInfo) key value).
Proof.
  intros Hin. apply kept_step. intros s. unfold rdbSet, footprint. mrun.
  destruct (rdb (self s)) as [cl|] eqn:Hrdb; [|repeat split; auto]. msimpl.
  pose proof (λ k, redisSet_other key value (world s) k) as Hother.
  destruct (redisSet key value (world s)) as [res w]. msimpl.
  repeat split; auto. intros k Hk. apply Hother. now intros ->.
Qed.

Lemma kept_rdbIncr key :
  key ∈ rk →
  kept (rdbIncr (Obj := Obj) (Cfg := R3.CacheConfig) (Item := string)
          (Note := R3.versionInfo) key).
Proof.
  intros Hin. apply kept_step. intros s. unfold rdbIncr, footprint. mrun.
  destruct (rdb (self s)) as [cl|] eqn:Hrdb; [|repeat split; auto]. msimpl.
  pose proof (λ k, redisIncr_other key (world s) k) as Hother.
  destruct (redisIncr key (world s)) as [res w]. msimpl.
  repeat split; auto. intros k Hk. apply Hother. now intros ->.
Qed.

Lemma kept_lockerObtain key :
  key ∈ rk →
  triple (footprint lk rk queue s0)
    (lockerObtain (Obj := Obj) (Cfg := R3.CacheConfig) (Item := string)
       (Note := R3.versionInfo) key)
    (λ r s, footprint lk rk queue s0 s ∧ lockKey r.1 = key)
    (footprint lk rk queue s0).
Proof.
  intros Hin s Hs. unfold lockerObtain. mrun.
  destruct (locker (self s)) as [cl|] eqn:Hlocker; [|exact Hs]. msimpl.
  pose proof (λ k, lockObtain_other key (world s) k) as Hother.
  pose proof (lockObtain_key key (world s)) as Hkey.
  destruct (lockObtain key (world s)) as [res w]. msimpl. split; [|exact Hkey].
  eapply footprint_trans; [exact Hs|]. unfold footprint. msimpl.
  repeat split; auto. intros k Hk. apply Hother. now intros ->.
Qed.

Lemma kept_release l :
  lockKey l ∈ rk →
  kept (release (Obj := Obj) (Cfg := R3.CacheConfig) (Item := string)
          (Note := R3.versionInfo) l).
Proof.
  intros Hin. apply kept_step. intros s. unfold release, footprint. mrun.
  pose proof (λ k, lockRelease_other l (world s) k) as Hother.
  destruct (lockRelease l (world s)) as [res w]. msimpl.
  repeat split; auto. intros k Hk. apply Hother. now intros ->.
Qed.

End Footprint.

Section Footprints.
Context {Obj : Type} `{!Cacheable Obj, !Codec Obj}.
Implicit Types s : State Obj R3.CacheConfig string R3.versionInfo.

Local Abbreviation keeps lk rk queue s0 m :=
  (triple (footprint lk rk queue s0) m (λ _, footprint lk rk queue s0)
     (footprint lk rk queue s0)).

Ltac kept_step :=
  first
    [ apply triple_ret; intros; assumption
    | eapply triple_bind;
      [first [ apply kept_getSelf | apply kept_cGet | apply kept_callLoader
             | apply kept_rdbGet
             | apply kept_cSet; set_solver
             | apply kept_setVersion; set_solver
             | apply kept_rdbSet; set_solver
             | apply kept_rdbIncr; set_solver
             | apply kept_release; set_solver ]
      |intros ?] ].

Lemma checkCacheUpdate_keeps lk rk s0 namespace key :
  keeps lk rk true s0 (R3.checkCacheUpdate namespace key).
Proof.
  unfold R3.checkCacheUpdate.
  eapply triple_bind; [apply kept_rdbGet|intros [content [err|]]];
    [kept_step|].
  destruct (ParseInt content) as [latest|]; [|kept_step].
  eapply triple_bind; [apply kept_getSelf|intros p].
  destruct (version p !! _) as [current|]; [|kept_step].
  destruct (decide (latest ≠ current)); [now apply kept_send|kept_step].
Qed.

Lemma loadThrough_keeps queue s0 k key obj :
  keeps [k] [k] queue s0 (R3.loadThrough k key obj).
Proof.
  unfold R3.loadThrough.
  eapply triple_bind; [apply kept_getSelf|intros p].
  destruct (loaders p !! Namespace obj) as [loader|]; [|kept_step].
  eapply triple_bind; [apply kept_callLoader|intros [data|err]]; [|kept_step].
  destruct (Copy obj data) as [obj'|err]; [|kept_step].
  do 3 kept_step.
  eapply triple_bind with (Q := λ _, footprint [k] [k] queue s0);
    [|intros ?; kept_step].
  destruct (version _ !! k); [kept_step|apply kept_setVersion; set_solver].
Qed.

Lemma get_keeps queue s0 key obj :
  keeps [jointKey [Namespace obj; key]] [jointKey [Namespace obj; key]] queue
    s0 (R3.get key obj).
Proof.
  unfold R3.get.
  eapply triple_bind; [apply kept_cGet|intros [content|]].
  - destruct (UnmarshalFromString content obj); kept_step.
  - eapply triple_bind; [apply kept_rdbGet|intros [content err]].
    destruct (bool_decide _); [kept_step|].
    destruct (decide (content ≠ "")); [|apply loadThrough_keeps].
    destruct (UnmarshalFromString content obj) as [obj1|]; [|kept_step].
    kept_step. apply loadThrough_keeps.
Qed.

(** The steps of [get] before the seed leave the shadow map as it is. *)
Lemma seeded_step {A} k ver0 (m : M _ A) :
  (∀ s, version (self (final (m s))) = version (self s)) →
  triple (λ s, version (self s) = ver0) m (λ _ s, version (self s) = ver0)
    (λ s, seeded k ver0 (version (self s))).
Proof.
  intros Hstep s Hs. specialize (Hstep s).
  destruct (m s); msimpl; [congruence|left; congruence..].
Qed.

Lemma rdbGet_version key s :
  version (self (final (rdbGet (Note := R3.versionInfo) key s)))
  = version (self s).
Proof.
  unfold rdbGet. mrun. destruct (rdb (self s)); [|reflexivity]. msimpl.
  now destruct (redisGet key (world s)).
Qed.

Lemma rdbSet_version key value s :
  version (self (final (rdbSet (Note := R3.versionInfo) key value s)))
  = version (self s).
Proof.
  unfold rdbSet. mrun. destruct (rdb (self s)); [|reflexivity]. msimpl.
  now destruct (redisSet key value (world s)).
Qed.

Ltac seed_step :=
  first
    [ apply triple_ret; intros ? ->; now left
    | eapply triple_bind;
      [apply seeded_step; intros ?;
       first [ reflexivity | apply rdbGet_version | apply rdbSet_version ]
      |intros ?] ].

Lemma loadThrough_seeds ver0 k key obj :
  triple (λ s, version (self s) = ver0) (R3.loadThrough k key obj)
    (λ _ s, seeded k ver0 (version (self s)))
    (λ s, seeded k ver0 (version (self s))).
Proof.
  unfold R3.loadThrough.
  eapply triple_bind; [apply seeded_step; intros ?; reflexivity|intros p].
  destruct (loaders p !! Namespace obj) as [loader|]; [|seed_step].
  eapply triple_bind;
    [apply seeded_step; intros ?; reflexivity|intros [data|err]];
    [|seed_step].
  destruct (Copy obj data) as [obj'|err]; [|seed_step].
  do 2 seed_step.
  intros s Hs. unfold setVersion. mrun.
  destruct (version (self s) !! k) eqn:Hk; msimpl.
  - left. exact Hs.
  - right. subst ver0. now split.
Qed.

Lemma get_seeds ver0 key obj :
  triple (λ s, version (self s) = ver0) (R3.get key obj)
    (λ _ s, seeded (jointKey [Namespace obj; key]) ver0 (version (self s)))
    (λ s, seeded (jointKey [Namespace obj; key]) ver0 (version (self s))).
Proof.
  unfold R3.get.
  eapply triple_bind; [apply seeded_step; intros ?; reflexivity
                      |intros [content|]].
  - destruct (UnmarshalFromString content obj); seed_step.
  - eapply triple_bind; [apply seeded_step, rdbGet_version
                        |intros [content err]].
    destruct (bool_decide _); [seed_step|].
    destruct (decide (content ≠ "")); [|apply loadThrough_seeds].
    destruct (UnmarshalFromString content obj) as [obj1|]; [|seed_step].
    seed_step. apply loadThrough_seeds.
Qed.

Lemma Get_keeps s0 key obj :
  keeps [jointKey [Namespace obj; key]] [jointKey [Namespace obj; key]] true
    s0 (R3.Get key obj).
Proof.
  unfold R3.Get.
  eapply triple_bind; [apply checkCacheUpdate_keeps|intros ?; apply get_keeps].
Qed.

Lemma Refresh_keeps s0 fuel namespace key :
  keeps [jointKey [namespace; key]]
    [jointKey [namespace; key]; jointKey ["lock"; jointKey [namespace; key]];
     jointKey ["version"; jointKey [namespace; key]]] false s0
    (R3.Refresh fuel namespace key).
Proof.
  set (k := jointKey [namespace; key]).
  unfold R3.Refresh. eapply triple_bind; [apply kept_getSelf|intros p].
  destruct (loaders p !! namespace) as [loader|]; [|kept_step].
  induction fuel as [|fuel IH]; cbn [R3.refreshTask].
  - intros s1 Hs1. exact Hs1.
  - fold k.
    eapply triple_bind; [apply kept_lockerObtain; set_solver
                        |intros [lock err]].
    apply triple_assume. cbn [fst]. intros Hkey.
    destruct err as [err|]; [exact IH|].
    eapply triple_bind; [apply kept_callLoader|intros [data|err]];
      [|kept_step].
    do 2 kept_step.
    eapply triple_bind; [apply kept_rdbIncr; set_solver|intros [recNo err]].
    eapply triple_bind
      with (Q := λ _, footprint [k]
                        [k; jointKey ["lock"; k]; jointKey ["version"; k]]
                        false s0).
    { destruct err as [err|]; [kept_step|apply kept_setVersion; set_solver]. }
    intros ?.
    eapply triple_bind
      with (Q := λ _, footprint [k]
                        [k; jointKey ["lock"; k]; jointKey ["version"; k]]
                        false s0);
      [|intros ?; kept_step].
    apply kept_release. rewrite Hkey. set_solver.
Qed.

(** X11. However a [Get] ends (a result, an error, a panic, a blocked
    send), it has written nothing but the entity's own value key in the two
    tiers, the registry and the clients are untouched, and the shadow map is
    what it was except for the seed 0 where the entity had no entry: [Get]
    never changes a shadow version that exists. *)
Theorem Get_footprint s key obj :
  let k := jointKey [Namespace obj; key] in
  let s' := final (R3.Get key obj s) in
  footprint [k] [k] true s s'
  ∧ seeded k (version (self s)) (version (self s')).
Proof.
  intros k s'. subst s'. split.
  - pose proof (Get_keeps s key obj s (footprint_refl _ _ _ s)) as Hkeeps.
    now destruct (R3.Get key obj s).
  - assert (triple (λ s1, version (self s1) = version (self s))
              (R3.Get key obj)
              (λ _ s1, seeded k (version (self s)) (version (self s1)))
              (λ s1, seeded k (version (self s)) (version (self s1))))
      as Hseeds.
    { unfold R3.Get. eapply triple_bind; [|intros ?; apply get_seeds].
      apply seeded_step. intros s1.
      pose proof (checkCacheUpdate_keeps [] [] s1 (Namespace obj) key s1
                    (footprint_refl _ _ _ s1)) as Hcheck.
      destruct (R3.checkCacheUpdate (Namespace obj) key s1); msimpl;
        destruct Hcheck as (Hl & _); apply map_eq; intros k1; apply Hl;
        set_solver. }
    specialize (Hseeds s eq_refl).
    now destruct (R3.Get key obj s).
Qed.

(** X12. However the goroutine of [Refresh] ends, and whatever the faults of
    the server, it has written the value key in the two tiers and in the
    shadow map, and in the remote tier besides it only its lock key and
    [jointKey ["version"; k]]; it never touches the queue. *)
Theorem Refresh_footprint s fuel namespace key :
  let k := jointKey [namespace; key] in
  footprint [k] [k; jointKey ["lock"; k]; jointKey ["version"; k]] false s
    (final (R3.Refresh fuel namespace key s)).
Proof.
  intros k.
  pose proof (Refresh_keeps s fuel namespace key s (footprint_refl _ _ _ s))
    as Hkeeps.
  now destruct (R3.Refresh fuel namespace key s).
Qed.

End Footprints.

(** ** From a change of the checked counter to the new value *)

Section Convergence.
Context {Obj : Type} `{!Cacheable Obj, !Codec Obj}.
Implicit Types s : State Obj R3.CacheConfig string R3.versionInfo.

(** X13. An instance holds an entity at a shadow version that differs from
    the counter its check reads. The [Get] that finds the difference queues
    the notification and still answers from the old local entry; one turn
    of the worker copies the remote value and the counter read; the next
    [Get] answers from the copy with the one read of the check, queues
    nothing and changes nothing. *)
Theorem Get_worker_Get s key obj cl vcontent latest current old new :
  let k := jointKey [Namespace obj; key] in
  let vk := jointKey [Namespace obj; key; "version"] in
  let decode content :=
    match UnmarshalFromString content obj with
    | inl obj' => (obj', None)
    | inr err => (obj, Some err)
    end in
  rdb (self s) = Some cl →
  outage (world s) = [] →
  closed (updates (self s)) = false →
  buf (updates (self s)) = [] →
  (0 < capacity (updates (self s)))%nat →
  redis (world s) !! vk = Some vcontent →
  ParseInt vcontent = Some latest →
  version (self s) !! k = Some current →
  latest ≠ current →
  c (self s) !! k = Some old →
  redis (world s) !! k = Some new →
  ∃ s1 s2 s3,
    R3.Get key obj s = Done (decode old) s1
    ∧ buf (updates (self s1)) = [R3.mkInfo k latest]
    ∧ R3.workerReceive s1 = Done () s2
    ∧ c (self s2) !! k = Some new
    ∧ version (self s2) !! k = Some latest
    ∧ buf (updates (self s2)) = []
    ∧ R3.Get key obj s2 = Done (decode new) s3
    ∧ added s2 s3 = [RedisGet vk]
    ∧ self s3 = self s2
    ∧ world s3 = world s.
Proof.
  intros k vk decode Hrdb Hup Hopen Hempty Hcap Hvk Hparse Hshadow Hne Hlocal
    Hremote.
  assert (R3.Get key obj s
          = Done (decode old)
              (mkState (world s)
                 (setUpdates (self s)
                    (mkChan [R3.mkInfo k latest] (capacity (updates (self s)))
                       false))
                 (trace s ++ [RedisGet vk]))) as Hfirst.
  { rewrite Get_unfold. unfold R3.checkCacheUpdate. mrun. rewrite Hrdb. msimpl.
    rewrite (redisGet_up _ _ Hup). fold vk. rewrite Hvk. msimpl.
    rewrite Hparse. msimpl. fold k. rewrite Hshadow.
    destruct (decide (latest ≠ current)) as [_|?]; [|contradiction]. msimpl.
    rewrite Hopen, Hempty.
    destruct (decide _) as [_|Hfull]; [|cbn in Hfull; lia]. msimpl.
    rewrite (get_local_hit _ key obj old) by exact Hlocal.
    now rewrite Hrdb. }
  eexists _, _, _. split; [exact Hfirst|]. split; [reflexivity|].
  split.
  { unfold R3.workerReceive, R3.parseAndDo. mrun. rewrite Hrdb. msimpl.
    cbn [R3.dataKey R3.versionNo].
    rewrite (redisGet_up _ _ Hup), Hremote. reflexivity. }
  msimpl. split; [apply lookup_insert_eq|]. split; [apply lookup_insert_eq|].
  split; [reflexivity|].
  rewrite Get_unfold. unfold R3.checkCacheUpdate. mrun.
  rewrite (redisGet_up _ _ Hup). fold vk. rewrite Hvk. msimpl.
  rewrite Hparse. msimpl. fold k. rewrite lookup_insert_eq.
  destruct (decide (latest ≠ latest)) as [?|_]; [contradiction|]. msimpl.
  rewrite (get_local_hit _ key obj new) by (msimpl; apply lookup_insert_eq).
  split; [reflexivity|]. unfold added. msimpl.
  rewrite drop_app_length. repeat split.
Qed.

End Convergence.

Lemma Get_worker_Get_witness :
  ∃ s1 s2 s3,
    R3.Get "1" zeroDish outdated = Done (staleDish, None) s1
    ∧ buf (updates (self s1)) = [R3.mkInfo "dish#$#1" 5]
    ∧ R3.workerReceive s1 = Done () s2
    ∧ version (self s2) !! "dish#$#1" = Some 5
    ∧ R3.Get "1" zeroDish s2 = Done (dish1, None) s3
    ∧ buf (updates (self s3)) = [].
Proof.
  destruct (Get_worker_Get outdated "1" zeroDish localhost "5" 5 0
              (marshalDish staleDish) (marshalDish dish1)
              ltac:(reflexivity) ltac:(reflexivity) ltac:(reflexivity)
              ltac:(reflexivity) ltac:(cbn; lia) ltac:(reflexivity)
              ltac:(reflexivity) ltac:(reflexivity) ltac:(discriminate)
              ltac:(reflexivity) ltac:(reflexivity))
    as (s1 & s2 & s3 & Hfirst & Hqueued & Hworker & _ & Hshadow & Hempty
        & Hsecond & _ & Hself & _).
  exists s1, s2, s3. rewrite Hself.
  split; [exact Hfirst|]. split; [exact Hqueued|]. split; [exact Hworker|].
  split; [exact Hshadow|]. split; [exact Hsecond|exact Hempty].
Defined.

(** ** [Refresh] off the main path *)

Lemma lockObtain_held key w tok :
  redis w !! key = Some tok →
  ∃ l err, (lockObtain key w).1 = (l, Some err)
    ∧ redis (lockObtain key w).2 = redis w.
Proof.
  intros Hheld. unfold lockObtain, reach. cbn.
  destruct (outage w) as [|[] out]; cbn; rewrite ?Hheld; eauto.
Qed.

Lemma redisIncr_refused k w :
  outage w = [] →
  counterOf w k = None →
  redisIncr (jointKey ["version"; k]) w = ((0, Some redisFailure), w).
Proof.
  intros Hup Hcount. unfold redisIncr. rewrite (reach_up _ Hup).
  unfold counterOf in Hcount. now rewrite Hcount.
Qed.

Section RefreshEdges.
Context {Obj : Type} `{!Cacheable Obj, !Codec Obj}.
Implicit Types s : State Obj R3.CacheConfig string R3.versionInfo.

(** While the lock key is held, every turn of the loop fails to obtain the
    lock, whether or not the command reaches the server. *)
Lemma refreshTask_retries fuel (loader : DataLoader Obj) namespace key :
  ∀ s cl tok,
    locker (self s) = Some cl →
    redis (world s) !! jointKey ["lock"; jointKey [namespace; key]] = Some tok →
    ∃ s', R3.refreshTask fuel loader namespace key s = Parked s'
      ∧ trace s'
        = trace s
          ++ replicate fuel
               (LockObtain (jointKey ["lock"; jointKey [namespace; key]]))
      ∧ self s' = self s
      ∧ redis (world s') = redis (world s).
Proof.
  induction fuel as [|fuel IH]; intros s cl tok Hlocker Hheld;
    cbn [R3.refreshTask replicate].
  - exists s. rewrite app_nil_r. now repeat split.
  - unfold lockerObtain. mrun. rewrite Hlocker. msimpl.
    destruct (lockObtain_held _ (world s) tok Hheld)
      as (l & err & Hfails & Hsame).
    destruct (lockObtain _ (world s)) as [res w]. msimpl. subst res. msimpl.
    destruct (IH (mkState w (self s)
                    (trace s
                     ++ [LockObtain
                           (jointKey ["lock"; jointKey [namespace; key]])]))
                cl tok)
      as (s' & Hrun & Htrace & Hself & Hredis); msimpl;
      [assumption|now rewrite Hsame|].
    exists s'. split; [exact Hrun|]. rewrite Htrace, Hself, Hredis, Hsame.
    rewrite <- app_assoc. now repeat split.
Qed.

(** X14. While the lock key of an entity is held, a [Refresh] of it does
    nothing but ask for the lock: after any number of turns of its loop it
    has called no loader, written no tier and changed nothing of the
    instance, whatever the faults of the server. *)
Theorem Refresh_waits_for_lock s fuel namespace key (loader : DataLoader Obj)
    cl tok :
  let lk := jointKey ["lock"; jointKey [namespace; key]] in
  locker (self s) = Some cl →
  loaders (self s) !! namespace = Some loader →
  redis (world s) !! lk = Some tok →
  ∃ s', R3.Refresh fuel namespace key s = Parked s'
    ∧ added s s' = replicate fuel (LockObtain lk)
    ∧ self s' = self s
    ∧ redis (world s') = redis (world s).
Proof.
  intros lk Hlocker Hloader Hheld. unfold R3.Refresh. mrun.
  rewrite Hloader.
  destruct (refreshTask_retries fuel loader namespace key s cl tok Hlocker
              Hheld) as (s' & Hrun & Htrace & Hself & Hredis).
  exists s'. split; [exact Hrun|]. unfold added.
  rewrite Htrace, drop_app_length. now repeat split.
Qed.

(** X15. A [Refresh] whose loader fails returns with the lock still held;
    from then on a [Refresh] of the same entity by any instance on that
    server only retries to obtain the lock (the expiry of the lock after
    [LockInterval] is not part of the model). *)
Theorem Refresh_loader_error_keeps_lock s fuel namespace key
    (loader : DataLoader Obj) cl err p' fuel' (loader' : DataLoader Obj) cl' :
  let lk := jointKey ["lock"; jointKey [namespace; key]] in
  locker (self s) = Some cl →
  outage (world s) = [] →
  loaders (self s) !! namespace = Some loader →
  redis (world s) !! lk = None →
  loader key = inr err →
  locker p' = Some cl' →
  loaders p' !! namespace = Some loader' →
  ∃ s1 s2,
    R3.Refresh (S fuel) namespace key s = Done () s1
    ∧ redis (world s1) !! lk = Some ("token-" +:+ pretty (nonce (world s)))
    ∧ R3.Refresh fuel' namespace key (mkState (world s1) p' []) = Parked s2
    ∧ trace s2 = replicate fuel' (LockObtain lk)
    ∧ self s2 = p'
    ∧ redis (world s2) = redis (world s1).
Proof.
  intros lk Hlocker Hup Hloader Hfree Hload Hlocker' Hloader'.
  assert (∃ s1, R3.Refresh (S fuel) namespace key s = Done () s1
            ∧ redis (world s1) !! lk
              = Some ("token-" +:+ pretty (nonce (world s))))
    as (s1 & Hrun & Hheld).
  { unfold R3.Refresh, R3.refreshTask. mrun. rewrite Hloader. msimpl.
    rewrite Hlocker. msimpl. fold lk.
    rewrite (lockObtain_up _ _ Hup Hfree). mgo.
    eexists. split; [reflexivity|]. msimpl. apply lookup_insert_eq. }
  destruct (refreshTask_retries fuel' loader' namespace key
              (mkState (world s1) p' []) cl' _ Hlocker' Hheld)
    as (s2 & Hrun2 & Htrace & Hself & Hredis).
  exists s1, s2. split; [exact Hrun|]. split; [exact Hheld|].
  split; [|now repeat split].
  unfold R3.Refresh. mrun. now rewrite Hloader'.
Qed.

(** X16. When [INCR] refuses the counter (the key holds no integer) the
    rest of [Refresh] still runs: the new value is in both tiers and the lock
    is released, but the shadow version is not touched and the counter is
    not bumped. *)
Theorem Refresh_counter_refused s fuel namespace key (loader : DataLoader Obj)
    cl cl' data :
  let k := jointKey [namespace; key] in
  rdb (self s) = Some cl →
  locker (self s) = Some cl' →
  outage (world s) = [] →
  loaders (self s) !! namespace = Some loader →
  redis (world s) !! jointKey ["lock"; k] = None →
  counterOf (world s) k = None →
  loader key = inl data →
  ∃ s', R3.Refresh (S fuel) namespace key s = Done () s'
    ∧ added s s'
      = [LockObtain (jointKey ["lock"; k]); LoaderCall namespace key;
         RedisSet k (toJson data); RedisIncr (jointKey ["version"; k]);
         LockRelease (jointKey ["lock"; k])]
    ∧ c (self s') = <[k := toJson data]> (c (self s))
    ∧ redis (world s') = <[k := toJson data]> (redis (world s))
    ∧ version (self s') = version (self s)
    ∧ counterOf (world s') k = None.
Proof.
  intros k Hrdb Hlocker Hup Hloader Hfree Hcount Hload.
  assert (jointKey ["lock"; k] ≠ k) as Hlk by apply lockKey_ne_value.
  assert (jointKey ["version"; k] ≠ k) as Hvk by apply versionKey_ne_value.
  assert (jointKey ["lock"; k] ≠ jointKey ["version"; k]) as Hlv
    by apply lockKey_ne_versionKey.
  unfold R3.Refresh, R3.refreshTask, added. mrun.
  fold k. rewrite Hloader. msimpl. rewrite Hlocker. msimpl.
  rewrite (lockObtain_up _ _ Hup Hfree). mgo.
  rewrite redisSet_up by reflexivity. msimpl.
  rewrite (redisIncr_refused k); msimpl; [|reflexivity|].
  2:{ unfold counterOf in *. msimpl. now rewrite !lookup_insert_ne by done. }
  rewrite lockRelease_up; msimpl; [|reflexivity|].
  2:{ now rewrite lookup_insert_ne, lookup_insert_eq by done. }
  eexists. split; [reflexivity|]. msimpl.
  rewrite <- !app_assoc, drop_app_length.
  rewrite delete_insert_ne, delete_insert_eq, (delete_id _ _ Hfree) by done.
  unfold counterOf in *. msimpl.
  rewrite lookup_insert_ne by done. now repeat split.
Qed.

End RefreshEdges.

Lemma Refresh_waits_for_lock_witness :
  redis lockedServer !! jointKey ["lock"; jointKey ["dish"; "1"]]
  = Some "token-0"
  ∧ ∃ s', R3.Refresh 3 "dish" "1" (mkState lockedServer ready3 []) = Parked s'
      ∧ added (mkState lockedServer ready3 []) s'
        = replicate 3 (LockObtain (jointKey ["lock"; jointKey ["dish"; "1"]]))
      ∧ self s' = ready3
      ∧ redis (world s') = redis lockedServer.
Proof.
  split; [reflexivity|].
  exact (Refresh_waits_for_lock (mkState lockedServer ready3 []) 3 "dish" "1"
           GetDish localhost "token-0" eq_refl eq_refl eq_refl).
Defined.

Lemma Refresh_loader_error_keeps_lock_witness :
  GetDish "3" = inr (Errorf "dish [3] not found")
  ∧ ∃ s1 s2,
      R3.Refresh 1 "dish" "3" (mkState emptyServer ready3 []) = Done () s1
      ∧ redis (world s1) !! jointKey ["lock"; jointKey ["dish"; "3"]]
        = Some "token-0"
      ∧ R3.Refresh 2 "dish" "3" (mkState (world s1) ready3 []) = Parked s2
      ∧ trace s2
        = replicate 2 (LockObtain (jointKey ["lock"; jointKey ["dish"; "3"]]))
      ∧ self s2 = ready3
      ∧ redis (world s2) = redis (world s1).
Proof.
  split; [reflexivity|].
  exact (Refresh_loader_error_keeps_lock (mkState emptyServer ready3 []) 0
           "dish" "3" GetDish localhost (Errorf "dish [3] not found") ready3 2
           GetDish localhost eq_refl eq_refl eq_refl eq_refl eq_refl eq_refl
           eq_refl).
Defined.

Lemma Refresh_counter_refused_witness :
  counterOf garbledServer (jointKey ["dish"; "1"]) = None
  ∧ ∃ s', R3.Refresh 1 "dish" "1" (mkState garbledServer ready3 []) = Done () s'
      ∧ added (mkState garbledServer ready3 []) s'
        = [LockObtain (jointKey ["lock"; jointKey ["dish"; "1"]]);
           LoaderCall "dish" "1";
           RedisSet (jointKey ["dish"; "1"]) (toJson dish1);
           RedisIncr (jointKey ["version"; jointKey ["dish"; "1"]]);
           LockRelease (jointKey ["lock"; jointKey ["dish"; "1"]])]
      ∧ c (self s') = <[jointKey ["dish"; "1"] := toJson dish1]> (c ready3)
      ∧ redis (world s')
        = <[jointKey ["dish"; "1"] := toJson dish1]> (redis garbledServer)
      ∧ version (self s') = version ready3
      ∧ counterOf (world s') (jointKey ["dish"; "1"]) = None.
Proof.
  split; [reflexivity|].
  exact (Refresh_counter_refused (mkState garbledServer ready3 []) 0 "dish" "1"
           GetDish localhost localhost dish1 eq_refl eq_refl eq_refl eq_refl
           eq_refl eq_refl eq_refl).
Defined.

(** ** The two older revisions: the worker's reload and [Refresh] *)

Section OlderPaths.
Context {Obj : Type} `{!Cacheable Obj, !Codec Obj}.

(** X17. [parseAndDo] of [src/cache.go] recovers namespace and key from the
    notification with [splitKey], calls the loader and stores what it
    returns under the notified key, without a command to the server and
    without a change of the shadow versions. For an entity whose key holds a
    separator the loader is called with the part of the key before it, and
    its data is stored under the key of the entity notified. *)
Theorem R1_parseAndDo_reloads (s : State Obj R1.CacheConfig Obj string)
    namespace key k :
  noHash namespace = true → noHash key = true →
  (k = jointKey [namespace; key]
   ∨ ∃ d, noHash d = true ∧ k = jointKey [namespace; key +:+ "#$#" +:+ d]) →
  R1.parseAndDo k s
  = match loaders (self s) !! namespace with
    | None => Done (Some R1.DataLoaderNotFound) s
    | Some loader =>
        match loader key with
        | inr err =>
            Done (Some err)
              (mkState (world s) (self s)
                 (trace s ++ [LoaderCall namespace key]))
        | inl data =>
            Done None
              (mkState (world s)
                 (mkLevelCache (<[k := data]> (c (self s))) (rdb (self s))
                    (loaders (self s)) (cfg (self s)) (version (self s))
                    (updates (self s)) (stop (self s)) (locker (self s)))
                 (trace s ++ [LoaderCall namespace key]))
        end
    end.
Proof.
  intros Hns Hkey Hk.
  assert (splitKey k = (namespace, key)) as Hsplit.
  { unfold splitKey, Split.
    destruct Hk as [->|(d & Hd & ->)]; rewrite jointKey_pair.
    - now rewrite (splitGo_joined _ _ _ Hns Hkey).
    - now rewrite (splitGo_piece _ _ _ Hns), (splitGo_joined _ _ _ Hkey Hd). }
  unfold R1.parseAndDo. rewrite Hsplit. mrun.
  destruct (loaders (self s) !! namespace) as [loader|]; [|reflexivity].
  msimpl. destruct (loader key) as [data|err]; reflexivity.
Qed.

(** X18. In [src/cache.go] a [Refresh] on the instance that [New] returned,
    once a loader is registered that has the entity, calls the loader and
    then panics at the write to the remote tier, the client never having
    been stored; nothing is written. *)
Theorem R1_Refresh_after_New conf w lc w' namespace (loader : DataLoader Obj)
    key data :
  R1.New conf w = Done (Some lc, None) w' →
  loader key = inl data →
  ∃ s1 s2,
    R1.RegisterLoader namespace loader (mkState w' lc []) = Done () s1
    ∧ R1.Refresh namespace key s1 = Panic s2
    ∧ trace s2 = [LoaderCall namespace key]
    ∧ c (self s2) = ∅
    ∧ version (self s2) = ∅
    ∧ world s2 = w'.
Proof.
  intros Hnew Hload.
  assert (lc = mkLevelCache ∅ None ∅ conf ∅ (makeChan R1.maxUpdateLen)
                 (makeChan 1) None) as ->.
  { unfold R1.New in Hnew. munfold.
    destruct (redisPing w) as [[err|] w1]; now simplify_eq. }
  eexists _, _. split; [reflexivity|].
  unfold R1.Refresh. mrun. rewrite lookup_insert_eq. msimpl. rewrite Hload.
  split; [reflexivity|]. now repeat split.
Qed.

(** X19. In [src/unnamed/part_000] the same [Refresh] obtains the lock,
    calls the loader, writes the local tier and then panics at the write to
    the remote tier: the remote value, the counter and the shadow version
    are as before, and the lock stays held. *)
Theorem R2_Refresh_after_New conf w lc w' fuel namespace
    (loader : DataLoader Obj) key data :
  let k := jointKey [namespace; key] in
  R2.New conf w = Done (Some lc, None) w' →
  outage w' = [] →
  redis w' !! jointKey ["lock"; k] = None →
  loader key = inl data →
  ∃ s1 s2,
    R2.RegisterLoader namespace loader (mkState w' lc []) = Done None s1
    ∧ R2.Refresh (S fuel) namespace key s1 = Panic s2
    ∧ trace s2 = [LockObtain (jointKey ["lock"; k]); LoaderCall namespace key]
    ∧ c (self s2) = {[ k := toJson data ]}
    ∧ version (self s2) = ∅
    ∧ redis (world s2)
      = <[jointKey ["lock"; k] := "token-" +:+ pretty (nonce w')]> (redis w').
Proof.
  intros k Hnew Hup Hfree Hload.
  assert (∃ ch cl, lc = mkLevelCache ∅ None ∅ conf ∅ ch (makeChan 1) (Some cl))
    as (ch & cl & ->).
  { unfold R2.New in Hnew. munfold.
    destruct (_ <? 0); [discriminate|].
    destruct (redisPing w) as [[err|] w1]; simplify_eq. eauto. }
  eexists _, _. split; [unfold R2.RegisterLoader; mrun; reflexivity|].
  unfold R2.Refresh, R2.refreshTask. mrun. rewrite lookup_insert_eq. msimpl.
  fold k. rewrite (lockObtain_up _ _ Hup Hfree). msimpl. rewrite Hload.
  split; [reflexivity|]. now repeat split.
Qed.

End OlderPaths.

Lemma R1_parseAndDo_reloads_witness :
  (∃ s', R1.parseAndDo "dish#$#1" (mkState servedServer ready1 []) = Done None s'
     ∧ trace s' = [LoaderCall "dish" "1"]
     ∧ c (self s') !! "dish#$#1" = Some dish1)
  ∧ ∃ s', R1.parseAndDo "dish#$#1#$#9" (mkState servedServer ready1 [])
          = Done None s'
      ∧ trace s' = [LoaderCall "dish" "1"]
      ∧ c (self s') !! "dish#$#1#$#9" = Some dish1.
Proof.
  split; eexists.
  - split.
    + exact (R1_parseAndDo_reloads (mkState servedServer ready1 []) "dish" "1"
               "dish#$#1" eq_refl eq_refl (or_introl eq_refl)).
    + split; reflexivity.
  - split.
    + exact (R1_parseAndDo_reloads (mkState servedServer ready1 []) "dish" "1"
               "dish#$#1#$#9" eq_refl eq_refl
               (or_intror (ex_intro _ "9" (conj eq_refl eq_refl)))).
    + split; reflexivity.
Defined.

Lemma R1_Refresh_after_New_witness :
  R1.New testConfig1 emptyServer = Done (Some fresh1, None) emptyServer
  ∧ GetDish "1" = inl dish1
  ∧ ∃ s1 s2,
      R1.RegisterLoader "dish" GetDish (mkState emptyServer fresh1 [])
      = Done () s1
      ∧ R1.Refresh "dish" "1" s1 = Panic s2
      ∧ trace s2 = [LoaderCall "dish" "1"]
      ∧ c (self s2) = ∅
      ∧ version (self s2) = ∅
      ∧ world s2 = emptyServer.
Proof.
  do 2 (split; [reflexivity|]).
  exact (R1_Refresh_after_New testConfig1 emptyServer fresh1 emptyServer "dish"
           GetDish "1" dish1 eq_refl eq_refl).
Defined.

Lemma R2_Refresh_after_New_witness :
  R2.New testConfig2 emptyServer = Done (Some fresh2, None) emptyServer
  ∧ GetDish "1" = inl dish1
  ∧ ∃ s1 s2,
      R2.RegisterLoader "dish" GetDish (mkState emptyServer fresh2 [])
      = Done None s1
      ∧ R2.Refresh 1 "dish" "1" s1 = Panic s2
      ∧ trace s2 = [LockObtain (jointKey ["lock"; jointKey ["dish"; "1"]]);
                    LoaderCall "dish" "1"]
      ∧ c (self s2) = {[ jointKey ["dish"; "1"] := toJson dish1 ]}
      ∧ version (self s2) = ∅
      ∧ redis (world s2)
        = <[jointKey ["lock"; jointKey ["dish"; "1"]] := "token-0"]>
            (redis emptyServer).
Proof.
  do 2 (split; [reflexivity|]).
  exact (R2_Refresh_after_New testConfig2 emptyServer fresh2 emptyServer 0
           "dish" GetDish "1" dish1 eq_refl eq_refl eq_refl eq_refl).
Defined.

(** ** The loader of the tests *)

(** X20. [GetDish] answers for the keys "1" and "2" only, with a dish whose
    own [Key] is the key asked for and whose namespace is "dish", so that
    the value key built by [Get] from the request is the one built from the
    dish; for every other key the error names the key. *)
Theorem GetDish_key key :
  match GetDish key with
  | inl d =>
      Key d = key ∧ (key = "1" ∨ key = "2")
      ∧ jointKey [Namespace d; Key d] = jointKey [Namespace zeroDish; key]
  | inr err =>
      err = Errorf ("dish [" +:+ key +:+ "] not found")
      ∧ key ≠ "1" ∧ key ≠ "2"
  end.
Proof.
  unfold GetDish.
  destruct (decide (key = "1")) as [->|Hone]; [split; [|split]; auto|].
  destruct (decide (key = "2")) as [->|Htwo]; [split; [|split]; auto|].
  auto.
Qed.

(** ** Calls about other entities, calls by other instances *)

Section IsolationOfCalls.
Context {Obj : Type} `{!Cacheable Obj, !Codec Obj}.
Implicit Types sys : System (Obj := Obj).

Lemma perform_footprint (cl : call (Obj := Obj)) s :
  footprint [valueKey cl] (remoteKeys cl)
    (match cl with CallGet _ _ => true | CallRefresh _ _ _ => false end)
    s (perform cl s).
Proof.
  destruct cl as [key obj|fuel namespace key]; cbn [perform remoteKeys valueKey].
  - pose proof (Get_keeps s key obj s (footprint_refl _ _ _ s)) as Hkeeps.
    now destruct (R3.Get key obj s).
  - pose proof (Refresh_keeps s fuel namespace key s (footprint_refl _ _ _ s))
      as Hkeeps.
    now destruct (R3.Refresh fuel namespace key s).
Qed.

Lemma act_remote k sys step :
  k ∉ remoteKeys step.2 → redis (act sys step).1 !! k = redis sys.1 !! k.
Proof.
  intros Hk. unfold act. destruct (sys.2 !! step.1) as [p|]; [|reflexivity].
  cbn [fst].
  destruct (perform_footprint step.2 (mkState sys.1 p [])) as (_ & Hr & _).
  exact (Hr k Hk).
Qed.

Lemma act_other i sys step :
  step.1 ≠ i → (act sys step).2 !! i = sys.2 !! i.
Proof.
  intros Hne. unfold act. destruct (sys.2 !! step.1) as [p|]; [|reflexivity].
  cbn [snd]. now apply list_lookup_insert_ne.
Qed.

Lemma act_local i k sys step p :
  (step.1 = i → valueKey step.2 ≠ k) →
  sys.2 !! i = Some p →
  ∃ p', (act sys step).2 !! i = Some p' ∧ sameEntry k p p'.
Proof.
  intros Hstep Hp. destruct (decide (step.1 = i)) as [Hi|Hne].
  - unfold act. rewrite Hi, Hp. cbn [snd].
    rewrite list_lookup_insert_eq by (eapply lookup_lt_Some, Hp).
    eexists. split; [reflexivity|].
    destruct (perform_footprint step.2 (mkState sys.1 p []))
      as (Hl & _ & _ & Hloaders & _).
    destruct (Hl k) as [Hc Hv].
    { apply not_elem_of_cons. split; [|apply not_elem_of_nil].
      intros ->. now apply Hstep. }
    now split.
  - exists p. rewrite (act_other _ _ _ Hne). now split.
Qed.

(** X21. In a system of instances on one server, through any sequence of
    [Get]s and [Refresh]es however they end: a key of the remote tier that
    is none of the keys of the entities called about keeps its value; an
    instance that makes no call is unchanged; and an instance keeps its
    local entry and its shadow version of an entity, and its registry,
    through its own calls about entities with another value key and through
    all calls of the others. *)
Theorem calls_are_isolated sched sys :
  (∀ k, Forall (λ step, k ∉ remoteKeys step.2) sched →
        redis (runAll sched sys).1 !! k = redis sys.1 !! k)
  ∧ (∀ i, Forall (λ step, step.1 ≠ i) sched →
          (runAll sched sys).2 !! i = sys.2 !! i)
  ∧ (∀ i k p, Forall (λ step, step.1 = i → valueKey step.2 ≠ k) sched →
              sys.2 !! i = Some p →
              ∃ p', (runAll sched sys).2 !! i = Some p' ∧ sameEntry k p p').
Proof.
  split; [|split].
  - intros k Hsched. revert sys.
    induction Hsched as [|step sched Hk _ IH]; intros sys; [reflexivity|].
    cbn [runAll foldl]. etrans; [apply IH|]. now apply act_remote.
  - intros i Hsched. revert sys.
    induction Hsched as [|step sched Hne _ IH]; intros sys; [reflexivity|].
    cbn [runAll foldl]. etrans; [apply IH|]. now apply act_other.
  - intros i k p Hsched. revert sys p.
    induction Hsched as [|step sched Hstep _ IH]; intros sys p Hp.
    + exists p. split; [exact Hp|]. now split.
    + cbn [runAll foldl].
      destruct (act_local i k sys step p Hstep Hp) as (p1 & Hp1 & Hc & Hv & Hl).
      destruct (IH _ _ Hp1) as (p2 & Hp2 & Hc2 & Hv2 & Hl2).
      exists p2. split; [exact Hp2|]. unfold sameEntry.
      repeat split; congruence.
Qed.

End IsolationOfCalls.

Lemma calls_are_isolated_witness :
  Forall (λ step, jointKey ["dish"; "1"] ∉ remoteKeys step.2)
    [(0%nat, CallGet "2" zeroDish); (1%nat, CallRefresh 1 "dish" "2")]
  ∧ redis (runAll [(0%nat, CallGet "2" zeroDish);
                   (1%nat, CallRefresh 1 "dish" "2")]
             (servedServer, [ready3; ready3; ready3])).1
    !! jointKey ["dish"; "1"]
    = Some (marshalDish staleDish)
  ∧ (runAll [(0%nat, CallGet "2" zeroDish); (1%nat, CallRefresh 1 "dish" "2")]
       (servedServer, [ready3; ready3; ready3])).2 !! 2%nat
    = Some ready3
  ∧ ∃ p', (runAll [(0%nat, CallGet "2" zeroDish);
                   (1%nat, CallRefresh 1 "dish" "2")]
             (servedServer, [ready3; ready3; ready3])).2 !! 0%nat
          = Some p'
      ∧ sameEntry (jointKey ["dish"; "1"]) ready3 p'.
Proof.
  assert (Forall (λ step : nat * call, jointKey ["dish"; "1"] ∉ remoteKeys step.2)
            [(0%nat, CallGet "2" zeroDish); (1%nat, CallRefresh 1 "dish" "2")])
    as Hkeys.
  { repeat constructor; vm_compute; intros Hin;
      repeat (apply elem_of_cons in Hin as [Hin|Hin]; [discriminate|]);
      now apply elem_of_nil in Hin. }
  destruct (calls_are_isolated
              [(0%nat, CallGet "2" zeroDish); (1%nat, CallRefresh 1 "dish" "2")]
              (servedServer, [ready3; ready3; ready3]))
    as (Hremote & Hidle & Hlocal).
  split; [exact Hkeys|]. split; [exact (Hremote _ Hkeys)|].
  split.
  - apply Hidle. repeat constructor; discriminate.
  - apply (Hlocal 0%nat (jointKey ["dish"; "1"]) ready3); [|reflexivity].
    repeat constructor; intros _; vm_compute; discriminate.
Defined.
